(** * Hadar's Blog: the content repository and its routes (server.py, forms.py)

    A shallow embedding of the Flask application.  The three SQLAlchemy
    tables are finite maps from the integer primary key to the row; a
    route is a function from the request context and the application
    state to a response and the next state.  An exception that no route
    catches (an [IntegrityError] raised by [db.session.commit()]) ends the
    request with the transaction rolled back. *)

From stdpp Require Import gmap strings list fin_maps sorting.

Local Open Scope Z_scope.

(** ** constants.py *)

(** Modelled from the spec: constants.py is imported by server.py but is not
    part of the sources; the spec gives the guest the classification 0. *)
Definition GUEST_CLASSIFICATION : Z := 0.

(** Modelled from the spec: the two messages of constants.py, which the spec
    describes as two different pages (access denied, unreachable content). *)
Inductive ErrorMsg : Set :=
  | UNAUTHORIZED_ERROR_MSG
  | UNREACHABLE_ERROR_MSG.

(** ** The models *)

(** [datetime.date], as its ordinal. *)
Definition Date : Set := Z.

Module User.
Record t : Set := mk {
  email : string;
  password : string;
  name : string;
  classification : Z
}.
End User.

Module Post.
Record t : Set := mk {
  title : string;
  subtitle : string;
  img_url : string;
  author : string;
  body : string;
  date : Date
}.
End Post.

Module Comment.
Record t : Set := mk {
  user_id : Z;
  post_id : Z;
  body : string;
  approved : bool
}.

Definition set_approved (b : bool) (c : t) : t :=
  mk (user_id c) (post_id c) (body c) b.
End Comment.

(** blog.db: one map per table, keyed by the [id] column. *)
Record Db : Type := mkDb {
  users : gmap Z User.t;
  posts : gmap Z Post.t;
  comments : gmap Z Comment.t
}.

Definition empty_db : Db := mkDb ∅ ∅ ∅.

Definition set_users (f : gmap Z User.t → gmap Z User.t) (d : Db) : Db :=
  mkDb (f (users d)) (posts d) (comments d).
Definition set_posts (f : gmap Z Post.t → gmap Z Post.t) (d : Db) : Db :=
  mkDb (users d) (f (posts d)) (comments d).
Definition set_comments (f : gmap Z Comment.t → gmap Z Comment.t) (d : Db) : Db :=
  mkDb (users d) (posts d) (f (comments d)).

Inductive Exception : Set :=
  | IntegrityError (constraint : string)
  | AttributeError.

(** The rowid SQLite gives an [INTEGER PRIMARY KEY] left out of the INSERT:
    one more than the largest in the table, 1 in an empty table. *)
Definition max_id {A} (tbl : gmap Z A) : Z :=
  map_fold (λ k _ acc, Z.max k acc) 0 tbl.
Definition next_id {A} (tbl : gmap Z A) : Z := 1 + max_id tbl.

(** ** The unit of work: [db.session.add] / attribute assignment /
    [db.session.delete], each followed by [db.session.commit()] *)

(** INSERT INTO users; [email] is [unique=True]. *)
Definition add_user (u : User.t) (d : Db) : Exception + Z * Db :=
  if decide (map_Exists (λ _ u', User.email u' = User.email u) (users d))
  then inl (IntegrityError "UNIQUE constraint failed: users.email")
  else let k := next_id (users d) in inr (k, set_users (insert k u) d).

(** INSERT INTO posts; [title] is [unique=True]. *)
Definition add_post (p : Post.t) (d : Db) : Exception + Z * Db :=
  if decide (map_Exists (λ _ q, Post.title q = Post.title p) (posts d))
  then inl (IntegrityError "UNIQUE constraint failed: posts.title")
  else let k := next_id (posts d) in inr (k, set_posts (insert k p) d).

(** UPDATE posts SET ... WHERE id = k, under the same constraint. *)
Definition update_post (k : Z) (p : Post.t) (d : Db) : Exception + Db :=
  if decide (map_Exists (λ j q, j ≠ k ∧ Post.title q = Post.title p) (posts d))
  then inl (IntegrityError "UNIQUE constraint failed: posts.title")
  else inr (set_posts (insert k p) d).

(** [db.session.delete(post)]: the relationship [comments] has
    [cascade="all,delete"], so the unit of work deletes the post's comments
    with it, in the same transaction. *)
Definition delete_post_cascade (k : Z) (d : Db) : Db :=
  mkDb (users d) (delete k (posts d))
       (filter (λ kc, Comment.post_id kc.2 ≠ k) (comments d)).

Definition add_comment (c : Comment.t) (d : Db) : Z * Db :=
  let k := next_id (comments d) in (k, set_comments (insert k c) d).

(** ** Queries *)

(** [.order_by(Post.id)] *)
Definition id_asc {A} : relation (Z * A) := λ a b, a.1 ≤ b.1.
#[global] Instance id_asc_dec {A} : RelDecision (@id_asc A).
Proof. intros a b. unfold id_asc. apply _. Defined.

(** [.order_by(Comment.approved.desc())]: a row may stand before another
    unless it is unapproved (0) and the other approved (1). *)
Definition approved_desc : relation (Z * Comment.t) :=
  λ a b, implb (Comment.approved b.2) (Comment.approved a.2).
#[global] Instance approved_desc_dec : RelDecision approved_desc.
Proof. intros a b. unfold approved_desc. apply _. Defined.

(** [db.select(Post).order_by(Post.id)] of [home] *)
Definition listPosts (d : Db) : list (Z * Post.t) :=
  merge_sort id_asc (map_to_list (posts d)).

(** [db.select(Post).where(Post.title == title)] of [create_post] *)
Definition posts_titled (title : string) (d : Db) : list (Z * Post.t) :=
  map_to_list (filter (λ kp, Post.title kp.2 = title) (posts d)).

(** [db.select(User).where(User.email == email)....scalar()] of [register] *)
Definition user_by_email (email : string) (d : Db) : option (Z * User.t) :=
  head (map_to_list (filter (λ ku, User.email ku.2 = email) (users d))).

(** [db.select(Comment).where(Comment.post_id == post_id)
      .order_by(Comment.approved.desc())] of [show_post].  SQL leaves the
    order among rows of equal [approved] open; the model takes the one the
    sort gives. *)
Definition listComments (post_id : Z) (d : Db) : list (Z * Comment.t) :=
  merge_sort approved_desc
    (map_to_list (filter (λ kc, Comment.post_id kc.2 = post_id) (comments d))).

(** ** forms.py *)

Module RegisterForm.
Record t : Set := mk { name : string; email : string; password : string }.
End RegisterForm.

(** [BasePostForm]; [EditPostForm] and [CreatePostForm] add only the
    submit button. *)
Module BasePostForm.
Record t : Set := mk {
  title : string;
  subtitle : string;
  img_url : string;
  author : string;
  body : string
}.
End BasePostForm.

Module CommentForm.
Record t : Set := mk { comment : string }.
End CommentForm.

Module LoginForm.
Record t : Set := mk { email : string; password : string }.
End LoginForm.

(** wtforms.validators, as forms.py instantiates them; [Length] has -1 for
    a bound that is not given. *)
Inductive Validator : Set :=
  | DataRequired
  | Length (min max : Z)
  | Email
  | URL
  | Regexp (regex : string).

Inductive Method : Set := GET | POST.

(** What a route reads of the HTTP request: the method, whether the CSRF
    token Flask-WTF checks is good, and the submitted fields. *)
Record Request (F : Type) : Type := mkRequest {
  method : Method;
  csrf_valid : bool;
  form : F
}.
Arguments mkRequest {F} _ _ _.
Arguments method {F} _.
Arguments csrf_valid {F} _.
Arguments form {F} _.

(** flask_login's [current_user] (the row [load_user] fetched, or the
    anonymous user) and the clock. *)
Record Ctx : Type := mkCtx {
  current_user : option (Z * User.t);
  today : Date
}.

(** ** Responses *)

Inductive Template : Set := register_html | create_html | edit_html | comment_html.

(** What the route returns.  [render_form] carries the messages the route
    itself appended to [form.<field>.errors]; [server_error] is an exception
    that left the route (HTTP 500). *)
Inductive Response : Type :=
  | render_error (error_message : ErrorMsg)
  | render_form (tpl : Template) (errors : list (string * string))
  | render_home (all_posts : list (Z * Post.t))
  | render_post (post : Z * Post.t) (cs : list (Z * Comment.t))
  | redirect_home
  | redirect_show_post (post_id : Z)
  | server_error (e : Exception).

(** The running process: the default of column [Post.date], which the class
    body of [Post] computed when the module was loaded, and the database. *)
Record App : Type := mkApp {
  Post_date_default : Date;
  db : Db
}.

Definition set_db (d : Db) (app : App) : App := mkApp (Post_date_default app) d.

(** The variables [load_dotenv()] provides. *)
Record Env : Set := mkEnv {
  ADMIN_EMAIL : string;
  ADMIN_PASSWORD : string;
  ADMIN_NAME : string
}.

Section Blog.

(** The libraries the routes call into: what a wtforms validator answers
    on a field's data, and werkzeug's password digest. *)
Variable validator_ok : Validator → string → bool.
Variable generate_password_hash : string → string.

Definition validate_field (validators : list Validator) (data : string) : bool :=
  forallb (λ v, validator_ok v data) validators.

Definition RegisterForm_validate (f : RegisterForm.t) : bool :=
  validate_field [DataRequired; Length 2 50] (RegisterForm.name f)
  && validate_field [DataRequired; Email] (RegisterForm.email f)
  && validate_field [DataRequired] (RegisterForm.password f).

Definition BasePostForm_validate (f : BasePostForm.t) : bool :=
  validate_field [DataRequired; Length 2 100] (BasePostForm.title f)
  && validate_field [DataRequired; Length 2 150] (BasePostForm.subtitle f)
  && validate_field [DataRequired; URL] (BasePostForm.img_url f)
  && validate_field [DataRequired; Length 2 100; Regexp "^[A-Za-z\s]+$"]
       (BasePostForm.author f)
  && validate_field [DataRequired; Length 5 (-1)] (BasePostForm.body f).

Definition CommentForm_validate (f : CommentForm.t) : bool :=
  validate_field [DataRequired; Length 5 (-1)] (CommentForm.comment f).

(** [form.validate_on_submit()] *)
Definition validate_on_submit {F} (validate : F → bool) (rq : Request F) : bool :=
  match method rq with
  | POST => csrf_valid rq && validate (form rq)
  | GET => false
  end.

(** ** Start of the process: the module body of server.py *)

Definition startup (env : Env) (now : Date) (disk : Db) : Exception + App :=
  (* class Post: date = mapped_column(Date, default=datetime.datetime.now().date(), ...) *)
  let Post_date_default := now in
  (* with app.app_context(): db.create_all(); ...add(new_user); ...commit() *)
  let new_user :=
    User.mk (ADMIN_EMAIL env) (generate_password_hash (ADMIN_PASSWORD env))
            (ADMIN_NAME env) 2 in
  match add_user new_user disk with
  | inl e => inl e
  | inr (_, disk') => inr (mkApp Post_date_default disk')
  end.

(** ** The routes *)

Definition is_authenticated (ctx : Ctx) : bool :=
  match current_user ctx with Some _ => true | None => false end.

Definition get_classification_level (ctx : Ctx) : Z :=
  match current_user ctx with
  | Some (_, u) => User.classification u
  | None => GUEST_CLASSIFICATION
  end.

(** [login_user(new_user)] writes to the session cookie, not to the
    database; the response of a successful registration is the redirect. *)
Definition register (ctx : Ctx) (rq : Request RegisterForm.t) (app : App)
  : Response * App :=
  if is_authenticated ctx then (redirect_home, app)
  else if validate_on_submit RegisterForm_validate rq then
    match user_by_email (RegisterForm.email (form rq)) (db app) with
    | None =>
        let new_user :=
          User.mk (RegisterForm.email (form rq))
                  (generate_password_hash (RegisterForm.password (form rq)))
                  (RegisterForm.name (form rq)) 1 in
        match add_user new_user (db app) with
        | inr (_, d) => (redirect_home, set_db d app)
        | inl e => (server_error e, app)
        end
    | Some _ =>
        (render_form register_html [("email", "This email address already in use")], app)
    end
  else (render_form register_html [], app).

Definition home (app : App) : Response * App :=
  (render_home (listPosts (db app)), app).

Definition create_post (ctx : Ctx) (rq : Request BasePostForm.t) (app : App)
  : Response * App :=
  if get_classification_level ctx <? 2 then (render_error UNAUTHORIZED_ERROR_MSG, app)
  else if validate_on_submit BasePostForm_validate rq then
    match posts_titled (BasePostForm.title (form rq)) (db app) with
    | _ :: _ =>
        (render_form create_html [("title", "A post with that title is already exist")], app)
    | [] =>
        let new_post :=
          Post.mk (BasePostForm.title (form rq)) (BasePostForm.subtitle (form rq))
                  (BasePostForm.img_url (form rq)) (BasePostForm.author (form rq))
                  (BasePostForm.body (form rq)) (Post_date_default app) in
        match add_post new_post (db app) with
        | inr (new_post_id, d) => (redirect_show_post new_post_id, set_db d app)
        | inl e => (server_error e, app)
        end
    end
  else (render_form create_html [], app).

Definition show_post (post_id : Z) (app : App) : Response * App :=
  let post_to_show := posts (db app) !! post_id in
  let cs := listComments post_id (db app) in
  match post_to_show with
  | Some p => (render_post (post_id, p) cs, app)
  | None => (render_error UNREACHABLE_ERROR_MSG, app)
  end.

Definition edit_post (ctx : Ctx) (post_id : Z) (rq : Request BasePostForm.t) (app : App)
  : Response * App :=
  if get_classification_level ctx <? 2 then (render_error UNAUTHORIZED_ERROR_MSG, app)
  else
    match posts (db app) !! post_id with
    | Some _ =>
        if validate_on_submit BasePostForm_validate rq then
          let updated :=
            Post.mk (BasePostForm.title (form rq)) (BasePostForm.subtitle (form rq))
                    (BasePostForm.img_url (form rq)) (BasePostForm.author (form rq))
                    (BasePostForm.body (form rq)) (today ctx) in
          match update_post post_id updated (db app) with
          | inr d => (redirect_show_post post_id, set_db d app)
          | inl e => (server_error e, app)
          end
        else (render_form edit_html [], app)
    | None => (render_error UNREACHABLE_ERROR_MSG, app)
    end.

Definition delete_post (ctx : Ctx) (post_id : Z) (app : App) : Response * App :=
  if get_classification_level ctx <? 2 then (render_error UNAUTHORIZED_ERROR_MSG, app)
  else
    match posts (db app) !! post_id with
    | Some _ => (redirect_home, set_db (delete_post_cascade post_id (db app)) app)
    | None => (render_error UNREACHABLE_ERROR_MSG, app)
    end.

Definition comment_post (ctx : Ctx) (post_id : Z) (rq : Request CommentForm.t) (app : App)
  : Response * App :=
  if get_classification_level ctx <? 1 then (render_error UNAUTHORIZED_ERROR_MSG, app)
  else
    match posts (db app) !! post_id with
    | Some _ =>
        if validate_on_submit CommentForm_validate rq then
          match current_user ctx with
          | Some (uid, _) =>
              let new_comment :=
                Comment.mk uid post_id (CommentForm.comment (form rq)) false in
              (redirect_show_post post_id,
               set_db (add_comment new_comment (db app)).2 app)
          | None => (server_error AttributeError, app)
          end
        else (render_form comment_html [], app)
    | None => (render_error UNREACHABLE_ERROR_MSG, app)
    end.

Definition approve_comment (ctx : Ctx) (comment_id : Z) (app : App) : Response * App :=
  if get_classification_level ctx <? 2 then (render_error UNAUTHORIZED_ERROR_MSG, app)
  else
    match comments (db app) !! comment_id with
    | Some comment_to_approve =>
        let approved := Comment.set_approved true comment_to_approve in
        (redirect_show_post (Comment.post_id approved),
         set_db (set_comments (insert comment_id approved) (db app)) app)
    | None => (render_error UNREACHABLE_ERROR_MSG, app)
    end.

Definition delete_comment (ctx : Ctx) (comment_id : Z) (app : App) : Response * App :=
  if get_classification_level ctx <? 2 then (render_error UNAUTHORIZED_ERROR_MSG, app)
  else
    match comments (db app) !! comment_id with
    | Some comment_to_delete =>
        let temp_post_id := Comment.post_id comment_to_delete in
        (redirect_show_post temp_post_id,
         set_db (set_comments (delete comment_id) (db app)) app)
    | None => (render_error UNREACHABLE_ERROR_MSG, app)
    end.

(** ** The requests that reach the repository, and the route of each

    [login], [logout], [about] and [contact] read at most the users table
    and write nothing to the database; they are not among the calls. *)

Inductive Call : Type :=
  | call_register (rq : Request RegisterForm.t)
  | call_home
  | call_show_post (post_id : Z)
  | call_create_post (rq : Request BasePostForm.t)
  | call_edit_post (post_id : Z) (rq : Request BasePostForm.t)
  | call_delete_post (post_id : Z)
  | call_comment_post (post_id : Z) (rq : Request CommentForm.t)
  | call_approve_comment (comment_id : Z)
  | call_delete_comment (comment_id : Z).

Definition route (ctx : Ctx) (c : Call) (app : App) : Response * App :=
  match c with
  | call_register rq => register ctx rq app
  | call_home => home app
  | call_show_post post_id => show_post post_id app
  | call_create_post rq => create_post ctx rq app
  | call_edit_post post_id rq => edit_post ctx post_id rq app
  | call_delete_post post_id => delete_post ctx post_id app
  | call_comment_post post_id rq => comment_post ctx post_id rq app
  | call_approve_comment comment_id => approve_comment ctx comment_id app
  | call_delete_comment comment_id => delete_comment ctx comment_id app
  end.

(** ** The authorization gate *)

Inductive Action : Set :=
  | ViewContent
  | CommentOnPost
  | CreatePost
  | EditPost
  | DeletePost
  | ApproveComment
  | DeleteComment.

(** The comparison each route opens with ([get_classification_level() < 2],
    [< 1] in [comment_post], none in [home] and [show_post]). *)
Definition authorize (level : Z) (a : Action) : bool :=
  match a with
  | ViewContent => true
  | CommentOnPost => negb (level <? 1)
  | CreatePost | EditPost | DeletePost | ApproveComment | DeleteComment =>
      negb (level <? 2)
  end.

Definition action_of (c : Call) : option Action :=
  match c with
  | call_register _ => None
  | call_home | call_show_post _ => Some ViewContent
  | call_create_post _ => Some CreatePost
  | call_edit_post _ _ => Some EditPost
  | call_delete_post _ => Some DeletePost
  | call_comment_post _ _ => Some CommentOnPost
  | call_approve_comment _ => Some ApproveComment
  | call_delete_comment _ => Some DeleteComment
  end.

(** ** What the store's constraints keep, and how the claims read lists *)

(** [unique=True] on a column: no two rows of the table agree on it. *)
Definition unique_column {A B} (col : A → B) (tbl : gmap Z A) : Prop :=
  ∀ i j x y, tbl !! i = Some x → tbl !! j = Some y → col x = col y → i = j.

Definition titles_unique (d : Db) : Prop := unique_column Post.title (posts d).
Definition emails_unique (d : Db) : Prop := unique_column User.email (users d).

(** No approved comment stands before an unapproved one. *)
Definition unapproved_first (l : list (Z * Comment.t)) : Prop :=
  ∀ (i j : nat) a b, l !! i = Some a → l !! j = Some b →
    Comment.approved a.2 = false → Comment.approved b.2 = true → (i < j)%nat.

(** No unapproved comment stands before an approved one. *)
Definition approved_first (l : list (Z * Comment.t)) : Prop :=
  ∀ (i j : nat) a b, l !! i = Some a → l !! j = Some b →
    Comment.approved a.2 = true → Comment.approved b.2 = false → (i < j)%nat.

(** ** Requests as they arrive: the session cookie and [load_user] *)

(** [load_user]: [db.get_or_404(User, user_id)]; [None] is the abort with
    404. *)
Definition load_user (user_id : Z) (d : Db) : option User.t := users d !! user_id.

(** [current_user] of a request whose session names the user [session]
    (flask_login calls [load_user] when a route first reads it; a session
    without a user id gives the anonymous user). *)
Definition request_ctx (session : option Z) (day : Date) (d : Db) : option Ctx :=
  match session with
  | None => Some (mkCtx None day)
  | Some user_id =>
      match load_user user_id d with
      | Some u => Some (mkCtx (Some (user_id, u)) day)
      | None => None
      end
  end.

(** A request served: [None] is the 404 of [load_user], which comes before
    the route touches the database. *)
Definition serve (session : option Z) (day : Date) (c : Call) (app : App)
  : option (Response * App) :=
  match request_ctx session day (db app) with
  | Some ctx => Some (route ctx c app)
  | None => None
  end.

(** The state after a sequence of requests. *)
Fixpoint serve_all (rqs : list (option Z * Date * Call)) (app : App) : App :=
  match rqs with
  | [] => app
  | (session, day, c) :: rest =>
      match serve session day c app with
      | Some (_, app') => serve_all rest app'
      | None => serve_all rest app
      end
  end.

(** ** The routes of the session: [login], [logout] *)

Variable check_password_hash : string → string → bool.

Definition LoginForm_validate (f : LoginForm.t) : bool :=
  validate_field [DataRequired; Email] (LoginForm.email f)
  && validate_field [DataRequired] (LoginForm.password f).

(** What [login] and [logout] answer; [session_render_login] carries the
    messages the route appended to the fields' errors. *)
Inductive SessionResponse : Set :=
  | session_redirect_home
  | session_redirect_login
  | session_render_login (errors : list (string * string)).

(** The second component is the user id the session holds after the
    request ([login_user] sets it, [logout_user] removes it). *)
Definition login (ctx : Ctx) (rq : Request LoginForm.t) (app : App)
  : SessionResponse * option Z :=
  if is_authenticated ctx then (session_redirect_home, fst <$> current_user ctx)
  else if validate_on_submit LoginForm_validate rq then
    match user_by_email (LoginForm.email (form rq)) (db app) with
    | Some (user_id, user_found) =>
        if check_password_hash (User.password user_found) (LoginForm.password (form rq))
        then (session_redirect_home, Some user_id)
        else (session_render_login
                [("password", "Incorrect password, Please try again")], None)
    | None =>
        (session_render_login [("email", "Email not found, Please try again")], None)
    end
  else (session_render_login [], None).

Definition logout (ctx : Ctx) : SessionResponse * option Z :=
  if is_authenticated ctx then (session_redirect_home, None)
  else (session_redirect_login, None).

(** The session after [register]: [login_user(new_user)] on success. *)
Definition register_session (ctx : Ctx) (rq : Request RegisterForm.t) (app : App)
  : option Z :=
  if is_authenticated ctx then fst <$> current_user ctx
  else if validate_on_submit RegisterForm_validate rq then
    match user_by_email (RegisterForm.email (form rq)) (db app) with
    | None =>
        let new_user :=
          User.mk (RegisterForm.email (form rq))
                  (generate_password_hash (RegisterForm.password (form rq)))
                  (RegisterForm.name (form rq)) 1 in
        match add_user new_user (db app) with
        | inr (new_user_id, _) => Some new_user_id
        | inl _ => None
        end
    | Some _ => None
    end
  else None.

(** ** The rows the routes build from a form *)

(** The [Post(...)] of [create_post] and the assignments of [edit_post]. *)
Definition post_of_form (f : BasePostForm.t) (date : Date) : Post.t :=
  Post.mk (BasePostForm.title f) (BasePostForm.subtitle f) (BasePostForm.img_url f)
          (BasePostForm.author f) (BasePostForm.body f) date.

(** The [User(...)] of [register]. *)
Definition user_of_form (f : RegisterForm.t) : User.t :=
  User.mk (RegisterForm.email f) (generate_password_hash (RegisterForm.password f))
          (RegisterForm.name f) 1.

(** ** More of what the store keeps *)

Definition is_redirect (r : Response) : bool :=
  match r with
  | redirect_home | redirect_show_post _ => true
  | _ => false
  end.

(** Every comment is on a stored post and by a stored user. *)
Definition references_kept (d : Db) : Prop :=
  ∀ k c, comments d !! k = Some c →
    is_Some (posts d !! Comment.post_id c) ∧ is_Some (users d !! Comment.user_id c).

Definition constraints_kept (d : Db) : Prop :=
  titles_unique d ∧ emails_unique d ∧ references_kept d.

(** * Properties *)

(** ** Primary keys *)

Lemma max_id_ge {A} (tbl : gmap Z A) k x : tbl !! k = Some x → k ≤ max_id tbl.
Proof.
  unfold max_id. revert k x.
  apply (map_fold_weak_ind
           (λ r (m : gmap Z A), ∀ k x, m !! k = Some x → k ≤ r)).
  - intros k x Hk. by rewrite lookup_empty in Hk.
  - intros i y m r Hi IH k x Hk.
    destruct (decide (i = k)) as [->|Hne]; [lia|].
    rewrite lookup_insert_ne in Hk by done.
    specialize (IH _ _ Hk). lia.
Qed.

Lemma next_id_fresh {A} (tbl : gmap Z A) : tbl !! next_id tbl = None.
Proof.
  destruct (tbl !! next_id tbl) as [x|] eqn:Hk; [|done].
  apply max_id_ge in Hk. unfold next_id in Hk. lia.
Qed.

(** ** The order of the comment query *)

#[local] Instance approved_desc_trans : Transitive approved_desc.
Proof.
  intros [? a] [? b] [? c]. unfold approved_desc. simpl.
  by destruct (Comment.approved a), (Comment.approved b), (Comment.approved c).
Qed.

#[local] Instance approved_desc_total : Total approved_desc.
Proof.
  intros [? a] [? b]. unfold approved_desc. simpl.
  destruct (Comment.approved a), (Comment.approved b); simpl; auto.
Qed.

Lemma StronglySorted_lookup_lt {A} (R : relation A) (l : list A) (i j : nat) a b :
  StronglySorted R l → l !! i = Some a → l !! j = Some b → (i < j)%nat → R a b.
Proof.
  intros Hs. revert i j. induction Hs as [|x l Hs IH Hall]; intros i j Hi Hj Hlt.
  - by rewrite lookup_nil in Hi.
  - destruct j as [|j]; [lia|]. simpl in Hj.
    destruct i as [|i]; simpl in Hi.
    + inversion Hi; subst. rewrite Forall_forall in Hall.
      apply Hall. by eapply list_elem_of_lookup_2.
    + apply (IH i j); [done|done|lia].
Qed.

Lemma listComments_elem_of post_id d kc :
  kc ∈ listComments post_id d ↔
  comments d !! kc.1 = Some kc.2 ∧ Comment.post_id kc.2 = post_id.
Proof.
  unfold listComments. rewrite merge_sort_Permutation.
  destruct kc as [k c]. rewrite elem_of_map_to_list.
  by rewrite map_lookup_filter_Some.
Qed.

Lemma listComments_sorted post_id d :
  StronglySorted approved_desc (listComments post_id d).
Proof. apply StronglySorted_merge_sort; apply _. Qed.

Lemma listComments_length post_id d :
  length (listComments post_id d) =
  size (filter (λ kc : Z * Comment.t, Comment.post_id kc.2 = post_id) (comments d)).
Proof.
  unfold listComments. rewrite merge_sort_Permutation.
  apply length_map_to_list.
Qed.

(** C1, as amended: the comment query of [show_post] returns only comments
    of the post asked for, and every approved comment in it stands before
    every unapproved one ([approved] descending puts 1 before 0). *)
Theorem listComments_post_and_order (post_id : Z) (d : Db) :
  (∀ kc, kc ∈ listComments post_id d → Comment.post_id kc.2 = post_id)
  ∧ approved_first (listComments post_id d).
Proof.
  split.
  - intros kc Hkc. by apply listComments_elem_of in Hkc as [_ ?].
  - intros i j a b Hi Hj Ha Hb.
    destruct (decide (i < j)%nat) as [|Hge]; [done|exfalso].
    destruct (decide (i = j)) as [->|Hne].
    + rewrite Hi in Hj. inversion Hj; subst. congruence.
    + assert (approved_desc b a) as HR.
      { eapply (StronglySorted_lookup_lt _ _ j i);
          [apply listComments_sorted|done|done|lia]. }
      unfold approved_desc in HR. rewrite Ha, Hb in HR. done.
Qed.

(** ** The gate *)

Ltac gate_lt H :=
  match goal with
  | |- context [?l <? ?n] => destruct (Z.ltb_spec l n) as [H|H]
  end.

(** [authorize] is the decision the routes take: a call is answered with
    the access-denied page exactly when [authorize] refuses its action. *)
Lemma route_unauthorized_iff ctx c app a :
  action_of c = Some a →
  (route ctx c app).1 = render_error UNAUTHORIZED_ERROR_MSG
  ↔ authorize (get_classification_level ctx) a = false.
Proof.
  destruct c; simpl; intros Ha; inversion Ha; subst; clear Ha; simpl.
  - done.
  - unfold show_post. by destruct (posts (db app) !! post_id).
  - unfold create_post. gate_lt Hl; [done|].
    destruct (validate_on_submit _ _); [|done].
    destruct (posts_titled _ _); [|done]. by destruct (add_post _ _) as [?|[??]].
  - unfold edit_post. gate_lt Hl; [done|].
    destruct (posts (db app) !! post_id); [|done].
    destruct (validate_on_submit _ _); [|done]. by destruct (update_post _ _ _).
  - unfold delete_post. gate_lt Hl; [done|].
    by destruct (posts (db app) !! post_id).
  - unfold comment_post. gate_lt Hl; [done|].
    destruct (posts (db app) !! post_id); [|done].
    destruct (validate_on_submit _ _); [|done]. by destruct (current_user ctx) as [[??]|].
  - unfold approve_comment. gate_lt Hl; [done|].
    by destruct (comments (db app) !! comment_id).
  - unfold delete_comment. gate_lt Hl; [done|].
    by destruct (comments (db app) !! comment_id).
Qed.

(** C7: the authorization decision is monotonic in the level: an action
    allowed at level L is allowed at level L + 1. *)
Theorem authorize_monotonic (L : Z) (a : Action) :
  authorize L a = true → authorize (L + 1) a = true.
Proof.
  destruct a; simpl; try done; rewrite !negb_true_iff, !Z.ltb_ge; lia.
Qed.

(** C2: a caller of classification 0 is answered with the access-denied
    page by each of the six guarded routes, whatever the target id, the
    request and the store, and the state stays as it was. *)
Theorem guest_unauthorized (ctx : Ctx) (app : App)
    (post_id comment_id : Z)
    (rqp : Request BasePostForm.t) (rqc : Request CommentForm.t) :
  get_classification_level ctx = 0 →
  comment_post ctx post_id rqc app = (render_error UNAUTHORIZED_ERROR_MSG, app)
  ∧ create_post ctx rqp app = (render_error UNAUTHORIZED_ERROR_MSG, app)
  ∧ edit_post ctx post_id rqp app = (render_error UNAUTHORIZED_ERROR_MSG, app)
  ∧ delete_post ctx post_id app = (render_error UNAUTHORIZED_ERROR_MSG, app)
  ∧ approve_comment ctx comment_id app = (render_error UNAUTHORIZED_ERROR_MSG, app)
  ∧ delete_comment ctx comment_id app = (render_error UNAUTHORIZED_ERROR_MSG, app).
Proof.
  intros Hl.
  unfold comment_post, create_post, edit_post, delete_post, approve_comment,
    delete_comment.
  rewrite Hl. simpl. done.
Qed.

(** ** Comments *)

Lemma set_approved_id c :
  Comment.approved c = true → Comment.set_approved true c = c.
Proof. destruct c; simpl; by intros ->. Qed.

Lemma set_db_id app : set_db (db app) app = app.
Proof. by destruct app. Qed.

Lemma admin_passes ctx : 2 ≤ get_classification_level ctx →
  (get_classification_level ctx <? 2) = false.
Proof. intros. by apply Z.ltb_ge. Qed.

(** C10: approving a comment that is already approved succeeds again, with
    the same redirect to the parent post, and changes nothing. *)
Theorem approve_comment_idempotent (ctx : Ctx) (comment_id : Z) (app : App)
    (c : Comment.t) :
  2 ≤ get_classification_level ctx →
  comments (db app) !! comment_id = Some c →
  Comment.approved c = true →
  approve_comment ctx comment_id app = (redirect_show_post (Comment.post_id c), app).
Proof.
  intros Hl Hc Ha. unfold approve_comment.
  rewrite (admin_passes _ Hl), Hc, (set_approved_id _ Ha).
  f_equal. destruct app as [dflt [us ps cs]]. unfold set_db, set_comments. simpl in *.
  by rewrite insert_id.
Qed.

(** Approving twice is approving once. *)
Lemma approve_comment_twice ctx comment_id app :
  let (r, app') := approve_comment ctx comment_id app in
  approve_comment ctx comment_id app' = (r, app').
Proof.
  unfold approve_comment.
  destruct (get_classification_level ctx <? 2) eqn:Hl; [done|].
  destruct (comments (db app) !! comment_id) as [c|] eqn:Hc.
  - simpl. rewrite lookup_insert_eq.
    destruct c, app as [dflt [us ps cs]]. unfold set_db, set_comments. simpl.
    by rewrite insert_insert_eq.
  - by rewrite Hc.
Qed.

(** C9: what the routes do to a stored comment.  [approve_comment] stores
    it again with [approved] set and the other columns as they were; and a
    call of any route either leaves the comment as it is, or deletes it
    ([delete_comment] on it, [delete_post] on its post), or is that
    [approve_comment]. *)
Theorem comment_only_approved_changes (ctx : Ctx) (app : App) (k : Z)
    (c : Comment.t) :
  comments (db app) !! k = Some c →
  (2 ≤ get_classification_level ctx →
   comments (db (approve_comment ctx k app).2) !! k
   = Some (Comment.mk (Comment.user_id c) (Comment.post_id c) (Comment.body c) true))
  ∧ (∀ call : Call,
      match comments (db (route ctx call app).2) !! k with
      | None => call = call_delete_comment k
                ∨ call = call_delete_post (Comment.post_id c)
      | Some c' =>
          Comment.user_id c' = Comment.user_id c
          ∧ Comment.post_id c' = Comment.post_id c
          ∧ Comment.body c' = Comment.body c
          ∧ (Comment.approved c' = Comment.approved c
             ∨ (call = call_approve_comment k ∧ Comment.approved c' = true))
      end).
Proof.
  intros Hc. split.
  - intros Hl. unfold approve_comment. rewrite (admin_passes _ Hl), Hc. simpl.
    by rewrite lookup_insert_eq.
  - assert (∀ call, comments (db app) !! k = Some c →
      match comments (db app) !! k with
      | None => call = call_delete_comment k
                ∨ call = call_delete_post (Comment.post_id c)
      | Some c' =>
          Comment.user_id c' = Comment.user_id c
          ∧ Comment.post_id c' = Comment.post_id c
          ∧ Comment.body c' = Comment.body c
          ∧ (Comment.approved c' = Comment.approved c
             ∨ (call = call_approve_comment k ∧ Comment.approved c' = true))
      end) as Hsame.
    { intros call ->. auto. }
    intros call. destruct call; simpl.
    + unfold register. destruct (is_authenticated ctx); [by apply Hsame|].
      destruct (validate_on_submit _ _); [|by apply Hsame].
      destruct (user_by_email _ _); [by apply Hsame|].
      unfold add_user. case_decide; by apply Hsame.
    + by apply Hsame.
    + unfold show_post. destruct (posts (db app) !! post_id); by apply Hsame.
    + unfold create_post. gate_lt Hl; [by apply Hsame|].
      destruct (validate_on_submit _ _); [|by apply Hsame].
      destruct (posts_titled _ _); [|by apply Hsame].
      unfold add_post. case_decide; by apply Hsame.
    + unfold edit_post. gate_lt Hl; [by apply Hsame|].
      destruct (posts (db app) !! post_id); [|by apply Hsame].
      destruct (validate_on_submit _ _); [|by apply Hsame].
      unfold update_post. case_decide; by apply Hsame.
    + unfold delete_post. gate_lt Hl; [by apply Hsame|].
      destruct (posts (db app) !! post_id); [|by apply Hsame]. simpl.
      destruct (decide (Comment.post_id c = post_id)) as [<-|Hne].
      * rewrite map_lookup_filter_None_2; [by right|].
        right. intros c' Hc'. rewrite Hc in Hc'. inversion Hc'; subst. simpl. intros Hne. by apply Hne.
      * rewrite (map_lookup_filter_Some_2 _ _ _ c); [auto|done|done].
    + unfold comment_post. gate_lt Hl; [by apply Hsame|].
      destruct (posts (db app) !! post_id); [|by apply Hsame].
      destruct (validate_on_submit _ _); [|by apply Hsame].
      destruct (current_user ctx) as [[uid ?]|]; [|by apply Hsame]. simpl.
      rewrite lookup_insert_ne; [by apply Hsame|].
      intros <-. by rewrite next_id_fresh in Hc.
    + unfold approve_comment. gate_lt Hl; [by apply Hsame|].
      destruct (comments (db app) !! comment_id) as [c0|] eqn:Hc0; [|by apply Hsame].
      simpl. destruct (decide (comment_id = k)) as [->|Hne].
      * rewrite lookup_insert_eq. rewrite Hc in Hc0. inversion Hc0; subst. simpl.
        split_and!; [done..|by right].
      * rewrite lookup_insert_ne by done. by apply Hsame.
    + unfold delete_comment. gate_lt Hl; [by apply Hsame|].
      destruct (comments (db app) !! comment_id) as [c0|] eqn:Hc0; [|by apply Hsame].
      simpl. destruct (decide (comment_id = k)) as [->|Hne].
      * rewrite lookup_delete_eq. by left.
      * rewrite lookup_delete_ne by done. by apply Hsame.
Qed.

(** ** Deleting a post *)

Lemma listComments_nil post_id d :
  (∀ k c, comments d !! k = Some c → Comment.post_id c ≠ post_id) →
  listComments post_id d = [].
Proof.
  intros Hnone. destruct (listComments post_id d) as [|[k c] l] eqn:Hl; [done|].
  assert ((k, c) ∈ listComments post_id d) as Hin by (rewrite Hl; left).
  apply listComments_elem_of in Hin as [Hk Hp]. simpl in *.
  by destruct (Hnone _ _ Hk).
Qed.

Lemma size_comments_split post_id (cs : gmap Z Comment.t) :
  size cs =
  (size (filter (λ kc : Z * Comment.t, Comment.post_id kc.2 = post_id) cs)
   + size (filter (λ kc : Z * Comment.t, Comment.post_id kc.2 ≠ post_id) cs))%nat.
Proof.
  rewrite <-map_size_disj_union
    by apply (map_disjoint_filter_complement
                (λ kc : Z * Comment.t, Comment.post_id kc.2 = post_id)).
  by rewrite (map_filter_union_complement
                (λ kc : Z * Comment.t, Comment.post_id kc.2 = post_id)).
Qed.

(** C6: an admin's [delete_post] on an existing post succeeds, removes the
    post and each of its N comments, leaves no comment of that post id in
    the store, and keeps the comments of the other posts. *)
Theorem delete_post_cascades (ctx : Ctx) (post_id : Z) (app : App) (p : Post.t) :
  2 ≤ get_classification_level ctx →
  posts (db app) !! post_id = Some p →
  let N := length (listComments post_id (db app)) in
  let app' := (delete_post ctx post_id app).2 in
  (delete_post ctx post_id app).1 = redirect_home
  ∧ posts (db app') !! post_id = None
  ∧ (∀ k c, comments (db app') !! k = Some c → Comment.post_id c ≠ post_id)
  ∧ listComments post_id (db app') = []
  ∧ (size (comments (db app')) + N)%nat = size (comments (db app))
  ∧ (∀ k c, comments (db app) !! k = Some c → Comment.post_id c ≠ post_id →
            comments (db app') !! k = Some c).
Proof.
  intros Hl Hp. unfold delete_post. rewrite (admin_passes _ Hl), Hp. simpl.
  assert (∀ k c,
    filter (λ kc : Z * Comment.t, Comment.post_id kc.2 ≠ post_id)
      (comments (db app)) !! k = Some c → Comment.post_id c ≠ post_id) as Hgone.
  { intros k c Hk. by apply map_lookup_filter_Some in Hk as [_ ?]. }
  split_and!.
  - done.
  - apply lookup_delete_eq.
  - done.
  - by apply listComments_nil.
  - rewrite listComments_length, (size_comments_split post_id (comments (db app))).
    lia.
  - intros k c Hk Hne. by apply map_lookup_filter_Some_2.
Qed.

(** ** Titles *)

Lemma posts_titled_nil title d :
  posts_titled title d = [] ↔
  ∀ k p, posts d !! k = Some p → Post.title p ≠ title.
Proof.
  unfold posts_titled. rewrite map_to_list_empty_iff, map_empty. split.
  - intros Hnone k p Hk Ht. specialize (Hnone k).
    by rewrite (map_lookup_filter_Some_2 _ _ _ p) in Hnone.
  - intros Hnone k. apply map_lookup_filter_None_2.
    destruct (posts d !! k) as [p|] eqn:Hk; [right|by left].
    intros q [= <-]. simpl. by apply (Hnone k).
Qed.

Lemma posts_titled_one d k p :
  titles_unique d → posts d !! k = Some p →
  length (posts_titled (Post.title p) d) = 1%nat.
Proof.
  intros Huniq Hk. unfold posts_titled. rewrite length_map_to_list.
  replace (filter (λ kp : Z * Post.t, Post.title kp.2 = Post.title p) (posts d))
    with ({[ k := p ]} : gmap Z Post.t); [apply map_size_singleton|].
  apply map_eq. intros j. destruct (decide (k = j)) as [<-|Hne].
  - rewrite lookup_singleton_eq. symmetry. by apply map_lookup_filter_Some_2.
  - rewrite lookup_singleton_ne by done. symmetry.
    apply map_lookup_filter_None_2.
    destruct (posts d !! j) as [q|] eqn:Hj; [right|by left].
    intros q' [= <-] Ht. simpl in Ht. apply Hne. symmetry.
    by apply (Huniq j k q p).
Qed.

(** C3: [create_post] by an admin, with a valid form whose title is that of
    a stored post, shows the creation form again with the duplicate-title
    message, inserts nothing, and the store still has that title once. *)
Theorem create_post_duplicate_title (ctx : Ctx) (rq : Request BasePostForm.t)
    (app : App) (k : Z) (p : Post.t) :
  2 ≤ get_classification_level ctx →
  titles_unique (db app) →
  posts (db app) !! k = Some p →
  validate_on_submit BasePostForm_validate rq = true →
  BasePostForm.title (form rq) = Post.title p →
  create_post ctx rq app
  = (render_form create_html [("title", "A post with that title is already exist")], app)
  ∧ length (posts_titled (Post.title p) (db (create_post ctx rq app).2)) = 1%nat.
Proof.
  intros Hl Huniq Hk Hvalid Ht.
  assert (create_post ctx rq app
    = (render_form create_html [("title", "A post with that title is already exist")],
       app)) as Hres.
  { unfold create_post. rewrite (admin_passes _ Hl), Hvalid, Ht.
    destruct (posts_titled (Post.title p) (db app)) eqn:Hq; [|done].
    rewrite posts_titled_nil in Hq. by destruct (Hq _ _ Hk). }
  split; [done|]. rewrite Hres. simpl. by apply (posts_titled_one _ k).
Qed.

(** C4: [edit_post] by an admin on a post, with the title of another stored
    post, changes nothing and does not answer with the redirect of a
    successful edit; with a valid form the commit raises the
    [IntegrityError] of the unique constraint.  Titles stay unique. *)
Theorem edit_post_duplicate_title_rejected (ctx : Ctx)
    (rq : Request BasePostForm.t) (app : App) (a b : Z) (pa pb : Post.t) :
  2 ≤ get_classification_level ctx →
  titles_unique (db app) →
  a ≠ b →
  posts (db app) !! a = Some pa →
  posts (db app) !! b = Some pb →
  BasePostForm.title (form rq) = Post.title pb →
  (edit_post ctx a rq app).2 = app
  ∧ (∀ k, (edit_post ctx a rq app).1 ≠ redirect_show_post k)
  ∧ (validate_on_submit BasePostForm_validate rq = true →
     (edit_post ctx a rq app).1
     = server_error (IntegrityError "UNIQUE constraint failed: posts.title"))
  ∧ titles_unique (db (edit_post ctx a rq app).2).
Proof.
  intros Hl Huniq Hab Ha Hb Ht. unfold edit_post.
  rewrite (admin_passes _ Hl), Ha.
  destruct (validate_on_submit BasePostForm_validate rq); [|done].
  unfold update_post. simpl. rewrite decide_True; [done|].
  apply (map_Exists_lookup_2 _ _ b pb); [done|]. by rewrite Ht.
Qed.

(** ** The unique constraints hold in every state the process reaches *)

Lemma unique_column_insert {A B} (col : A → B) (tbl : gmap Z A) k x :
  unique_column col tbl →
  (∀ j y, tbl !! j = Some y → j ≠ k → col y ≠ col x) →
  unique_column col (<[k:=x]> tbl).
Proof.
  intros Huniq Hnew i j a b Hi Hj Hab.
  destruct (decide (k = i)) as [<-|Hki], (decide (k = j)) as [<-|Hkj]; [done|..].
  - rewrite lookup_insert_eq in Hi. rewrite lookup_insert_ne in Hj by done.
    inversion Hi; subst. destruct (Hnew j b Hj); [by intros ->|done].
  - rewrite lookup_insert_eq in Hj. rewrite lookup_insert_ne in Hi by done.
    inversion Hj; subst. by destruct (Hnew i a Hi); [intros ->|].
  - rewrite lookup_insert_ne in Hi, Hj by done. by apply (Huniq i j a b).
Qed.

Lemma unique_column_delete {A B} (col : A → B) (tbl : gmap Z A) k :
  unique_column col tbl → unique_column col (delete k tbl).
Proof.
  intros Huniq i j a b Hi Hj. apply lookup_delete_Some in Hi as [_ Hi].
  apply lookup_delete_Some in Hj as [_ Hj]. by apply (Huniq i j a b).
Qed.

Lemma add_user_inr u d k d' :
  add_user u d = inr (k, d') →
  (∀ j v, users d !! j = Some v → User.email v ≠ User.email u)
  ∧ k = next_id (users d) ∧ d' = set_users (insert k u) d.
Proof.
  unfold add_user. case_decide as Hex; [done|]. intros [= <- <-].
  split; [|done]. intros j v Hj Hv. apply Hex. by exists j, v.
Qed.

Lemma add_user_keeps_constraints u d k d' :
  add_user u d = inr (k, d') →
  titles_unique d → emails_unique d → titles_unique d' ∧ emails_unique d'.
Proof.
  intros (Hnew & -> & ->)%add_user_inr Ht He. split; [done|].
  apply unique_column_insert; [done|]. intros j y Hj _. by apply (Hnew j).
Qed.

Lemma add_post_keeps_constraints p d k d' :
  add_post p d = inr (k, d') →
  titles_unique d → emails_unique d → titles_unique d' ∧ emails_unique d'.
Proof.
  unfold add_post. case_decide as Hex; [done|]. intros [= <- <-] Ht He.
  split; [|done]. apply unique_column_insert; [done|].
  intros j y Hj _ Hy. apply Hex. by exists j, y.
Qed.

Lemma update_post_keeps_constraints k p d d' :
  update_post k p d = inr d' →
  titles_unique d → emails_unique d → titles_unique d' ∧ emails_unique d'.
Proof.
  unfold update_post. case_decide as Hex; [done|]. intros [= <-] Ht He.
  split; [|done]. apply unique_column_insert; [done|].
  intros j y Hj Hjk Hy. apply Hex. by exists j, y.
Qed.

Lemma route_keeps_constraints ctx call app :
  titles_unique (db app) → emails_unique (db app) →
  titles_unique (db (route ctx call app).2)
  ∧ emails_unique (db (route ctx call app).2).
Proof.
  intros Ht He. destruct call; simpl.
  - unfold register. destruct (is_authenticated ctx); [done|].
    destruct (validate_on_submit _ _); [|done].
    destruct (user_by_email _ _); [done|].
    destruct (add_user _ _) as [?|[k d]] eqn:Hadd; [done|].
    by apply (add_user_keeps_constraints _ _ _ _ Hadd).
  - done.
  - unfold show_post. by destruct (posts (db app) !! post_id).
  - unfold create_post. gate_lt Hl; [done|].
    destruct (validate_on_submit _ _); [|done].
    destruct (posts_titled _ _); [|done].
    destruct (add_post _ _) as [?|[k d]] eqn:Hadd; [done|].
    by apply (add_post_keeps_constraints _ _ _ _ Hadd).
  - unfold edit_post. gate_lt Hl; [done|].
    destruct (posts (db app) !! post_id); [|done].
    destruct (validate_on_submit _ _); [|done].
    destruct (update_post _ _ _) as [?|d] eqn:Hupd; [done|].
    by apply (update_post_keeps_constraints _ _ _ _ Hupd).
  - unfold delete_post. gate_lt Hl; [done|].
    destruct (posts (db app) !! post_id); [|done].
    split; [|done]. by apply unique_column_delete.
  - unfold comment_post. gate_lt Hl; [done|].
    destruct (posts (db app) !! post_id); [|done].
    destruct (validate_on_submit _ _); [|done].
    by destruct (current_user ctx) as [[??]|].
  - unfold approve_comment. gate_lt Hl; [done|].
    by destruct (comments (db app) !! comment_id).
  - unfold delete_comment. gate_lt Hl; [done|].
    by destruct (comments (db app) !! comment_id).
Qed.

Lemma startup_keeps_constraints env now disk app :
  startup env now disk = inr app →
  titles_unique disk → emails_unique disk →
  titles_unique (db app) ∧ emails_unique (db app).
Proof.
  unfold startup. destruct (add_user _ _) as [?|[k d]] eqn:Hadd; [done|].
  intros [= <-]. by apply (add_user_keeps_constraints _ _ _ _ Hadd).
Qed.

(** ** The date of a new post *)

Lemma startup_Post_date_default env now disk app :
  startup env now disk = inr app → Post_date_default app = now.
Proof.
  unfold startup. destruct (add_user _ _) as [?|[k d]]; [done|]. by intros [= <-].
Qed.

Lemma route_Post_date_default ctx call app :
  Post_date_default (route ctx call app).2 = Post_date_default app.
Proof.
  destruct call; simpl.
  - unfold register. destruct (is_authenticated ctx); [done|].
    destruct (validate_on_submit _ _); [|done].
    destruct (user_by_email _ _); [done|]. by destruct (add_user _ _) as [?|[??]].
  - done.
  - unfold show_post. by destruct (posts (db app) !! post_id).
  - unfold create_post. gate_lt Hl; [done|].
    destruct (validate_on_submit _ _); [|done].
    destruct (posts_titled _ _); [|done]. by destruct (add_post _ _) as [?|[??]].
  - unfold edit_post. gate_lt Hl; [done|].
    destruct (posts (db app) !! post_id); [|done].
    destruct (validate_on_submit _ _); [|done]. by destruct (update_post _ _ _).
  - unfold delete_post. gate_lt Hl; [done|].
    by destruct (posts (db app) !! post_id).
  - unfold comment_post. gate_lt Hl; [done|].
    destruct (posts (db app) !! post_id); [|done].
    destruct (validate_on_submit _ _); [|done].
    by destruct (current_user ctx) as [[??]|].
  - unfold approve_comment. gate_lt Hl; [done|].
    by destruct (comments (db app) !! comment_id).
  - unfold delete_comment. gate_lt Hl; [done|].
    by destruct (comments (db app) !! comment_id).
Qed.

(** A post that [create_post] inserts carries the default the process
    computed when it started, whatever the day of the request; compare
    [edit_post], which reads the clock. *)
Lemma create_post_date ctx rq app :
  2 ≤ get_classification_level ctx →
  validate_on_submit BasePostForm_validate rq = true →
  (∀ k p, posts (db app) !! k = Some p →
          Post.title p ≠ BasePostForm.title (form rq)) →
  let new_id := next_id (posts (db app)) in
  (create_post ctx rq app).1 = redirect_show_post new_id
  ∧ ∃ p, posts (db (create_post ctx rq app).2) !! new_id = Some p
         ∧ Post.title p = BasePostForm.title (form rq)
         ∧ Post.date p = Post_date_default app.
Proof.
  intros Hl Hvalid Hfree. unfold create_post.
  rewrite (admin_passes _ Hl), Hvalid.
  apply posts_titled_nil in Hfree as Hnil. rewrite Hnil.
  unfold add_post. rewrite decide_False.
  - simpl. split; [done|]. eexists. by rewrite lookup_insert_eq.
  - intros (k & p & Hk & Hp). by apply (Hfree k p).
Qed.

Lemma edit_post_date ctx post_id rq app p :
  2 ≤ get_classification_level ctx →
  posts (db app) !! post_id = Some p →
  validate_on_submit BasePostForm_validate rq = true →
  (∀ k q, posts (db app) !! k = Some q → k ≠ post_id →
          Post.title q ≠ BasePostForm.title (form rq)) →
  (edit_post ctx post_id rq app).1 = redirect_show_post post_id
  ∧ ∃ q, posts (db (edit_post ctx post_id rq app).2) !! post_id = Some q
         ∧ Post.date q = today ctx.
Proof.
  intros Hl Hp Hvalid Hfree. unfold edit_post.
  rewrite (admin_passes _ Hl), Hp, Hvalid.
  unfold update_post. rewrite decide_False.
  - simpl. split; [done|]. eexists. by rewrite lookup_insert_eq.
  - intros (k & q & Hk & Hne & Hq). by apply (Hfree k q).
Qed.

(** ** Starting the process on a store that has the admin *)

Lemma startup_existing_admin env now disk k u :
  users disk !! k = Some u → User.email u = ADMIN_EMAIL env →
  startup env now disk
  = inl (IntegrityError "UNIQUE constraint failed: users.email").
Proof.
  intros Hk Hu. unfold startup, add_user. rewrite decide_True; [done|].
  by exists k, u.
Qed.

Lemma startup_twice env day0 day1 disk app :
  startup env day0 disk = inr app →
  startup env day1 (db app)
  = inl (IntegrityError "UNIQUE constraint failed: users.email").
Proof.
  unfold startup at 1.
  destruct (add_user _ _) as [?|[k d]] eqn:Hadd; [done|]. intros [= <-].
  apply add_user_inr in Hadd as (_ & -> & ->).
  eapply (startup_existing_admin _ _ _ (next_id (users disk))); simpl.
  - apply lookup_insert_eq.
  - done.
Qed.

(** * Further properties of the routes *)

Ltac route_unfold :=
  unfold route, register, home, show_post, create_post, edit_post, delete_post,
    comment_post, approve_comment, delete_comment, add_user, add_post,
    update_post, add_comment.

(** ** [home] *)

#[local] Instance id_asc_trans {A} : Transitive (@id_asc A).
Proof. intros a b c. unfold id_asc. lia. Qed.

#[local] Instance id_asc_total {A} : Total (@id_asc A).
Proof. intros a b. unfold id_asc. lia. Qed.

(** X1: the list [home] shows holds exactly the stored posts, each once, in
    strictly ascending order of id. *)
Theorem listPosts_sorted_complete (d : Db) :
  (∀ k p, (k, p) ∈ listPosts d ↔ posts d !! k = Some p)
  ∧ length (listPosts d) = size (posts d)
  ∧ (∀ (i j : nat) a b, listPosts d !! i = Some a → listPosts d !! j = Some b →
       (i < j)%nat → a.1 < b.1).
Proof.
  assert (listPosts d ≡ₚ map_to_list (posts d)) as Hperm
    by apply merge_sort_Permutation.
  split_and!.
  - intros k p. by rewrite Hperm, elem_of_map_to_list.
  - by rewrite Hperm, length_map_to_list.
  - intros i j a b Hi Hj Hlt.
    assert (a.1 ≤ b.1) as Hle.
    { apply (StronglySorted_lookup_lt id_asc (listPosts d) i j); [|done..].
      apply StronglySorted_merge_sort; apply _. }
    assert (NoDup (listPosts d).*1) as Hnd.
    { rewrite Hperm. apply NoDup_fst_map_to_list. }
    destruct (decide (a.1 = b.1)) as [Heq|Hne]; [|lia].
    assert (i = j); [|lia].
    apply (NoDup_lookup _ i j (a.1) Hnd); rewrite list_lookup_fmap.
    + by rewrite Hi.
    + by rewrite Hj, Heq.
Qed.

(** ** Responses and writes *)

(** X2: a route writes only when it answers with a redirect: with an error
    page, a form shown again, a rendered page or an exception the state is
    the one before the request. *)
Theorem only_redirects_write (ctx : Ctx) (c : Call) (app : App) :
  is_redirect (route ctx c app).1 = false → (route ctx c app).2 = app.
Proof.
  destruct c; route_unfold; repeat case_match; simpl; done.
Qed.

Lemma authorize_le l1 l2 a :
  l1 ≤ l2 → authorize l1 a = true → authorize l2 a = true.
Proof.
  intros Hle. destruct a; simpl; try done; rewrite !negb_true_iff, !Z.ltb_ge; lia.
Qed.

Lemma register_not_denied ctx rq app :
  (register ctx rq app).1 ≠ render_error UNAUTHORIZED_ERROR_MSG.
Proof. route_unfold. by repeat case_match. Qed.

(** X3: a call a caller is not denied is not denied to a caller of the same
    or a higher classification, whatever the two states are. *)
Theorem gate_monotone_on_routes (ctx1 ctx2 : Ctx) (c : Call) (app1 app2 : App) :
  get_classification_level ctx1 ≤ get_classification_level ctx2 →
  (route ctx1 c app1).1 ≠ render_error UNAUTHORIZED_ERROR_MSG →
  (route ctx2 c app2).1 ≠ render_error UNAUTHORIZED_ERROR_MSG.
Proof.
  intros Hle Hok. destruct (action_of c) as [a|] eqn:Ha.
  - rewrite (route_unauthorized_iff _ _ _ a Ha) in Hok.
    rewrite (route_unauthorized_iff _ _ _ a Ha).
    apply not_false_iff_true in Hok. apply not_false_iff_true.
    by apply (authorize_le _ _ _ Hle).
  - destruct c; try done. simpl. apply register_not_denied.
Qed.


(** ** Comments: written, approved, deleted *)

Lemma member_passes ctx : 1 ≤ get_classification_level ctx →
  (get_classification_level ctx <? 1) = false.
Proof. intros. by apply Z.ltb_ge. Qed.

(** X5: [comment_post] by a logged-in caller of level 1 or more, on a
    stored post and with a valid form, stores one new comment under a fresh
    id: unapproved, by the caller, on that post; the comment query of the
    post then has it; no stored comment, post or user changes. *)
Theorem comment_post_stores (ctx : Ctx) (post_id : Z) (rq : Request CommentForm.t)
    (app : App) (p : Post.t) (uid : Z) (u : User.t) :
  current_user ctx = Some (uid, u) →
  1 ≤ User.classification u →
  posts (db app) !! post_id = Some p →
  validate_on_submit CommentForm_validate rq = true →
  let new_id := next_id (comments (db app)) in
  let c := Comment.mk uid post_id (CommentForm.comment (form rq)) false in
  let app' := (comment_post ctx post_id rq app).2 in
  (comment_post ctx post_id rq app).1 = redirect_show_post post_id
  ∧ comments (db app) !! new_id = None
  ∧ comments (db app') !! new_id = Some c
  ∧ (∀ k, k ≠ new_id → comments (db app') !! k = comments (db app) !! k)
  ∧ (new_id, c) ∈ listComments post_id (db app')
  ∧ length (listComments post_id (db app'))
    = S (length (listComments post_id (db app)))
  ∧ posts (db app') = posts (db app)
  ∧ users (db app') = users (db app).
Proof.
  intros Hu Hl Hp Hvalid. unfold comment_post.
  rewrite member_passes by (unfold get_classification_level; by rewrite Hu).
  rewrite Hp, Hvalid, Hu. simpl.
  pose proof (next_id_fresh (comments (db app))) as Hfresh.
  split_and!; try done.
  - apply lookup_insert_eq.
  - intros k Hk. by rewrite lookup_insert_ne.
  - apply listComments_elem_of. simpl. by rewrite lookup_insert_eq.
  - rewrite !listComments_length. simpl.
    rewrite map_filter_insert_True by done.
    apply map_size_insert_None, map_lookup_filter_None_2. by left.
Qed.

(** X6: [delete_comment] by an admin on a stored comment redirects to the
    post the comment was on and removes that comment and nothing else; the
    comment is gone from the comment query, and the same call again finds
    nothing to delete. *)
Theorem delete_comment_removes (ctx : Ctx) (k : Z) (app : App) (c : Comment.t) :
  2 ≤ get_classification_level ctx →
  comments (db app) !! k = Some c →
  let app' := (delete_comment ctx k app).2 in
  (delete_comment ctx k app).1 = redirect_show_post (Comment.post_id c)
  ∧ comments (db app') !! k = None
  ∧ (∀ j, j ≠ k → comments (db app') !! j = comments (db app) !! j)
  ∧ posts (db app') = posts (db app)
  ∧ users (db app') = users (db app)
  ∧ (∀ pid kc, kc ∈ listComments pid (db app')
               ↔ kc ∈ listComments pid (db app) ∧ kc.1 ≠ k)
  ∧ delete_comment ctx k app' = (render_error UNREACHABLE_ERROR_MSG, app').
Proof.
  intros Hl Hc.
  assert (delete_comment ctx k app
          = (redirect_show_post (Comment.post_id c),
             set_db (set_comments (delete k) (db app)) app)) as Heq.
  { unfold delete_comment. by rewrite (admin_passes _ Hl), Hc. }
  rewrite Heq. simpl. split_and!; try done.
  - apply lookup_delete_eq.
  - intros j Hj. by rewrite lookup_delete_ne.
  - intros pid [j cj]. rewrite !listComments_elem_of. simpl.
    rewrite lookup_delete_Some. intuition congruence.
  - unfold delete_comment. rewrite (admin_passes _ Hl). simpl.
    by rewrite lookup_delete_eq.
Qed.

Lemma size_filter_insert_same {A} (P : Z * A → Prop) `{!∀ x, Decision (P x)}
    (m : gmap Z A) k x y :
  m !! k = Some x → (P (k, x) ↔ P (k, y)) →
  size (filter P (<[k:=y]> m)) = size (filter P m).
Proof.
  intros Hk HP. rewrite map_filter_insert. case_decide as Hy.
  - apply map_size_insert_Some. exists x. apply map_lookup_filter_Some_2; tauto.
  - rewrite map_filter_delete. apply map_size_delete_None.
    apply map_lookup_filter_None_2. right. intros x' Hx'.
    rewrite Hk in Hx'. inversion Hx'; subst. tauto.
Qed.

(** X7: [approve_comment] by an admin on a stored comment redirects to its
    post; afterwards the comment query of that post has the comment as
    approved and in no other form, every other comment is as before, and
    each post has as many comments as before. *)
Theorem approve_comment_listed (ctx : Ctx) (k : Z) (app : App) (c : Comment.t) :
  2 ≤ get_classification_level ctx →
  comments (db app) !! k = Some c →
  let app' := (approve_comment ctx k app).2 in
  (approve_comment ctx k app).1 = redirect_show_post (Comment.post_id c)
  ∧ (k, Comment.set_approved true c) ∈ listComments (Comment.post_id c) (db app')
  ∧ (∀ pid c', (k, c') ∈ listComments pid (db app') →
               c' = Comment.set_approved true c)
  ∧ (∀ j, j ≠ k → comments (db app') !! j = comments (db app) !! j)
  ∧ (∀ pid, length (listComments pid (db app'))
            = length (listComments pid (db app)))
  ∧ posts (db app') = posts (db app)
  ∧ users (db app') = users (db app).
Proof.
  intros Hl Hc. unfold approve_comment. rewrite (admin_passes _ Hl), Hc. simpl.
  split_and!; try done.
  - apply listComments_elem_of. simpl. by rewrite lookup_insert_eq.
  - intros pid c' [Hk _]%listComments_elem_of. simpl in Hk.
    rewrite lookup_insert_eq in Hk. by inversion Hk.
  - intros j Hj. by rewrite lookup_insert_ne.
  - intros pid. rewrite !listComments_length. simpl.
    by apply (size_filter_insert_same _ _ _ c).
Qed.

(** ** Posts: created, shown, edited *)

Lemma create_post_inserts ctx rq app :
  2 ≤ get_classification_level ctx →
  validate_on_submit BasePostForm_validate rq = true →
  (∀ k p, posts (db app) !! k = Some p →
          Post.title p ≠ BasePostForm.title (form rq)) →
  create_post ctx rq app
  = (redirect_show_post (next_id (posts (db app))),
     set_db (set_posts
               (insert (next_id (posts (db app)))
                       (post_of_form (form rq) (Post_date_default app)))
               (db app)) app).
Proof.
  intros Hl Hvalid Hfree.
  unfold create_post. rewrite (admin_passes _ Hl), Hvalid.
  rewrite (proj2 (posts_titled_nil _ _) Hfree).
  unfold add_post. rewrite decide_False; [done|].
  intros (k & p & Hk & Hp). by apply (Hfree k p).
Qed.

(** X8: [create_post] by an admin, with a valid form whose title no stored
    post has, stores the form's fields under a fresh id and redirects to
    it; stored posts, comments and users stay as they are; and the same
    request sent again is answered with the duplicate-title message and
    writes nothing. *)
Theorem create_post_stores (ctx : Ctx) (rq : Request BasePostForm.t) (app : App) :
  2 ≤ get_classification_level ctx →
  validate_on_submit BasePostForm_validate rq = true →
  (∀ k p, posts (db app) !! k = Some p →
          Post.title p ≠ BasePostForm.title (form rq)) →
  let new_id := next_id (posts (db app)) in
  let app' := (create_post ctx rq app).2 in
  (create_post ctx rq app).1 = redirect_show_post new_id
  ∧ posts (db app) !! new_id = None
  ∧ posts (db app') !! new_id = Some (post_of_form (form rq) (Post_date_default app))
  ∧ (∀ k, k ≠ new_id → posts (db app') !! k = posts (db app) !! k)
  ∧ comments (db app') = comments (db app)
  ∧ users (db app') = users (db app)
  ∧ create_post ctx rq app'
    = (render_form create_html
         [("title", "A post with that title is already exist")], app').
Proof.
  intros Hl Hvalid Hfree.
  pose proof (next_id_fresh (posts (db app))) as Hfresh.
  rewrite (create_post_inserts ctx rq app Hl Hvalid Hfree). simpl.
  split_and!; try done.
  - apply lookup_insert_eq.
  - intros k Hk. by rewrite lookup_insert_ne.
  - unfold create_post. rewrite (admin_passes _ Hl), Hvalid.
    destruct (posts_titled _ _) eqn:Hq; [|done].
    rewrite posts_titled_nil in Hq. simpl in Hq.
    destruct (Hq (next_id (posts (db app)))
                 (post_of_form (form rq) (Post_date_default app))); [|done].
    apply lookup_insert_eq.
Qed.

(** X9: in a store where every comment is on a stored post, the page of a
    post just created shows that post with no comments, although SQLite
    gives the id of a deleted last post out again. *)
Theorem created_post_shows_without_comments (ctx : Ctx)
    (rq : Request BasePostForm.t) (app : App) :
  references_kept (db app) →
  2 ≤ get_classification_level ctx →
  validate_on_submit BasePostForm_validate rq = true →
  (∀ k p, posts (db app) !! k = Some p →
          Post.title p ≠ BasePostForm.title (form rq)) →
  let new_id := next_id (posts (db app)) in
  let app' := (create_post ctx rq app).2 in
  show_post new_id app'
  = (render_post (new_id, post_of_form (form rq) (Post_date_default app)) [], app').
Proof.
  intros Hrefs Hl Hvalid Hfree.
  rewrite (create_post_inserts ctx rq app Hl Hvalid Hfree). simpl.
  unfold show_post. simpl. rewrite lookup_insert_eq, listComments_nil; [done|].
  intros k c Hk Hc. simpl in Hk.
  destruct (Hrefs k c Hk) as [[p Hp] _]. rewrite Hc in Hp.
  by rewrite next_id_fresh in Hp.
Qed.

Lemma edit_post_updates ctx post_id rq app p :
  2 ≤ get_classification_level ctx →
  posts (db app) !! post_id = Some p →
  validate_on_submit BasePostForm_validate rq = true →
  (∀ k q, posts (db app) !! k = Some q → k ≠ post_id →
          Post.title q ≠ BasePostForm.title (form rq)) →
  edit_post ctx post_id rq app
  = (redirect_show_post post_id,
     set_db (set_posts (insert post_id (post_of_form (form rq) (today ctx)))
                       (db app)) app).
Proof.
  intros Hl Hp Hvalid Hfree.
  unfold edit_post. rewrite (admin_passes _ Hl), Hp, Hvalid.
  unfold update_post. rewrite decide_False; [done|].
  intros (k & q & Hk & Hne & Hq). by apply (Hfree k q).
Qed.

(** X10: [edit_post] by an admin on a stored post, with a valid form whose
    title no other post has, overwrites the five fields and sets the date
    to the day of the request; the id, the other posts, the comments and
    the users stay; and the same edit on the same day changes nothing. *)
Theorem edit_post_overwrites (ctx : Ctx) (post_id : Z)
    (rq : Request BasePostForm.t) (app : App) (p : Post.t) :
  2 ≤ get_classification_level ctx →
  posts (db app) !! post_id = Some p →
  validate_on_submit BasePostForm_validate rq = true →
  (∀ k q, posts (db app) !! k = Some q → k ≠ post_id →
          Post.title q ≠ BasePostForm.title (form rq)) →
  let app' := (edit_post ctx post_id rq app).2 in
  (edit_post ctx post_id rq app).1 = redirect_show_post post_id
  ∧ posts (db app') !! post_id = Some (post_of_form (form rq) (today ctx))
  ∧ (∀ k, k ≠ post_id → posts (db app') !! k = posts (db app) !! k)
  ∧ size (posts (db app')) = size (posts (db app))
  ∧ comments (db app') = comments (db app)
  ∧ users (db app') = users (db app)
  ∧ edit_post ctx post_id rq app' = (redirect_show_post post_id, app').
Proof.
  intros Hl Hp Hvalid Hfree.
  rewrite (edit_post_updates ctx post_id rq app p Hl Hp Hvalid Hfree). simpl.
  split_and!; try done.
  - apply lookup_insert_eq.
  - intros k Hk. by rewrite lookup_insert_ne.
  - apply map_size_insert_Some. by exists p.
  - rewrite (edit_post_updates ctx post_id rq _ (post_of_form (form rq) (today ctx)));
      try done; simpl.
    + unfold set_db, set_posts. simpl. by rewrite insert_insert_eq.
    + apply lookup_insert_eq.
    + intros k q Hk Hne. rewrite lookup_insert_ne in Hk by done.
      by apply (Hfree k q).
Qed.

(** X11: under the unique constraint an edit that keeps the post's own
    title is not taken for a duplicate: it succeeds and restamps the
    post. *)
Theorem edit_post_keeping_title (ctx : Ctx) (post_id : Z)
    (rq : Request BasePostForm.t) (app : App) (p : Post.t) :
  titles_unique (db app) →
  2 ≤ get_classification_level ctx →
  posts (db app) !! post_id = Some p →
  validate_on_submit BasePostForm_validate rq = true →
  BasePostForm.title (form rq) = Post.title p →
  (edit_post ctx post_id rq app).1 = redirect_show_post post_id
  ∧ posts (db (edit_post ctx post_id rq app).2) !! post_id
    = Some (post_of_form (form rq) (today ctx)).
Proof.
  intros Huniq Hl Hp Hvalid Ht.
  assert (∀ k q, posts (db app) !! k = Some q → k ≠ post_id →
                 Post.title q ≠ BasePostForm.title (form rq)) as Hfree.
  { intros k q Hk Hne Hq. apply Hne. apply (Huniq k post_id q p); congruence. }
  rewrite (edit_post_updates ctx post_id rq app p Hl Hp Hvalid Hfree). simpl.
  split; [done|]. apply lookup_insert_eq.
Qed.

(** X12: what the routes do to a stored post: a call leaves it as it is,
    or is [delete_post] on it, or is [edit_post] on it and stores the
    form's fields with the day of the request. *)
Theorem post_changes_only_by_edit_or_delete (ctx : Ctx) (call : Call) (app : App)
    (k : Z) (p : Post.t) :
  posts (db app) !! k = Some p →
  match posts (db (route ctx call app).2) !! k with
  | None => call = call_delete_post k
  | Some q =>
      q = p ∨ ∃ rq, call = call_edit_post k rq ∧ q = post_of_form (form rq) (today ctx)
  end.
Proof.
  intros Hp.
  assert (match posts (db app) !! k with
          | None => call = call_delete_post k
          | Some q => q = p ∨ ∃ rq, call = call_edit_post k rq
                                    ∧ q = post_of_form (form rq) (today ctx)
          end) as Hsame by (rewrite Hp; by left).
  destruct call; simpl.
  - unfold register. destruct (is_authenticated ctx); [done|].
    destruct (validate_on_submit _ _); [|done].
    destruct (user_by_email _ _); [done|]. unfold add_user. by case_decide.
  - done.
  - unfold show_post. by destruct (posts (db app) !! post_id).
  - unfold create_post. gate_lt Hl; [done|].
    destruct (validate_on_submit _ _); [|done].
    destruct (posts_titled _ _); [|done].
    unfold add_post. case_decide; [done|]. simpl.
    rewrite lookup_insert_ne; [done|].
    intros <-. by rewrite next_id_fresh in Hp.
  - unfold edit_post. gate_lt Hl; [done|].
    destruct (posts (db app) !! post_id) eqn:Hq; [|done].
    destruct (validate_on_submit _ _); [|done].
    unfold update_post. case_decide; [done|]. simpl.
    destruct (decide (post_id = k)) as [->|Hne].
    + rewrite lookup_insert_eq. right. by exists rq.
    + by rewrite lookup_insert_ne.
  - unfold delete_post. gate_lt Hl; [done|].
    destruct (posts (db app) !! post_id) eqn:Hq; [|done]. simpl.
    destruct (decide (post_id = k)) as [->|Hne].
    + by rewrite lookup_delete_eq.
    + by rewrite lookup_delete_ne.
  - unfold comment_post. gate_lt Hl; [done|].
    destruct (posts (db app) !! post_id); [|done].
    destruct (validate_on_submit _ _); [|done].
    by destruct (current_user ctx) as [[??]|].
  - unfold approve_comment. gate_lt Hl; [done|].
    by destruct (comments (db app) !! comment_id).
  - unfold delete_comment. gate_lt Hl; [done|].
    by destruct (comments (db app) !! comment_id).
Qed.

(** ** Users: [register] *)

Lemma user_by_email_Some email d k u :
  user_by_email email d = Some (k, u) →
  users d !! k = Some u ∧ User.email u = email.
Proof.
  unfold user_by_email. intros Hh%head_Some_elem_of.
  apply elem_of_map_to_list in Hh. by apply map_lookup_filter_Some in Hh.
Qed.

Lemma user_by_email_None email d :
  user_by_email email d = None ↔
  ∀ k u, users d !! k = Some u → User.email u ≠ email.
Proof.
  unfold user_by_email. rewrite head_None, map_to_list_empty_iff, map_empty. split.
  - intros Hnone k u Hk Hu. specialize (Hnone k).
    by rewrite (map_lookup_filter_Some_2 _ _ _ u) in Hnone.
  - intros Hnone k. apply map_lookup_filter_None_2.
    destruct (users d !! k) as [u|] eqn:Hk; [right|by left].
    intros v [= <-]. simpl. by apply (Hnone k).
Qed.

Lemma user_by_email_unique d k u :
  emails_unique d → users d !! k = Some u →
  user_by_email (User.email u) d = Some (k, u).
Proof.
  intros Huniq Hk. destruct (user_by_email (User.email u) d) as [[j v]|] eqn:Hq.
  - apply user_by_email_Some in Hq as [Hj Hv].
    assert (j = k) as -> by by apply (Huniq j k v u). congruence.
  - rewrite user_by_email_None in Hq. by destruct (Hq k u Hk).
Qed.

Lemma register_inserts ctx rq app :
  is_authenticated ctx = false →
  validate_on_submit RegisterForm_validate rq = true →
  (∀ k u, users (db app) !! k = Some u →
          User.email u ≠ RegisterForm.email (form rq)) →
  register ctx rq app
  = (redirect_home,
     set_db (set_users (insert (next_id (users (db app))) (user_of_form (form rq)))
                       (db app)) app)
  ∧ register_session ctx rq app = Some (next_id (users (db app))).
Proof.
  intros Hanon Hvalid Hfree. unfold register, register_session.
  rewrite Hanon, Hvalid, (proj2 (user_by_email_None _ _) Hfree).
  unfold add_user. rewrite decide_False; [done|].
  intros (k & u & Hk & Hu). by apply (Hfree k u).
Qed.

(** X13: [register] by a caller who is not logged in, with a valid form
    whose email no stored user has, stores a user of classification 1 with
    the digest of the password under a fresh id, logs that user in and
    redirects home; the next request of that session runs at level 1; the
    stored users, posts and comments stay; and the same form sent again
    without a session is answered with the email-in-use message. *)
Theorem register_stores_member (ctx : Ctx) (rq : Request RegisterForm.t)
    (app : App) (day : Date) :
  is_authenticated ctx = false →
  validate_on_submit RegisterForm_validate rq = true →
  (∀ k u, users (db app) !! k = Some u →
          User.email u ≠ RegisterForm.email (form rq)) →
  let new_id := next_id (users (db app)) in
  let app' := (register ctx rq app).2 in
  (register ctx rq app).1 = redirect_home
  ∧ register_session ctx rq app = Some new_id
  ∧ users (db app) !! new_id = None
  ∧ users (db app') !! new_id = Some (user_of_form (form rq))
  ∧ (∀ k, k ≠ new_id → users (db app') !! k = users (db app) !! k)
  ∧ posts (db app') = posts (db app)
  ∧ comments (db app') = comments (db app)
  ∧ get_classification_level <$> request_ctx (Some new_id) day (db app') = Some 1
  ∧ register ctx rq app'
    = (render_form register_html [("email", "This email address already in use")],
       app').
Proof.
  intros Hanon Hvalid Hfree.
  destruct (register_inserts ctx rq app Hanon Hvalid Hfree) as [-> ->]. simpl.
  pose proof (next_id_fresh (users (db app))) as Hfresh.
  split_and!; try done.
  - apply lookup_insert_eq.
  - intros k Hk. by rewrite lookup_insert_ne.
  - unfold request_ctx, load_user. simpl. by rewrite lookup_insert_eq.
  - unfold register. rewrite Hanon, Hvalid.
    destruct (user_by_email _ _) as [[j v]|] eqn:Hq; [done|].
    rewrite user_by_email_None in Hq. simpl in Hq.
    destruct (Hq (next_id (users (db app))) (user_of_form (form rq))); [|done].
    apply lookup_insert_eq.
Qed.

(** X14: [register] with a valid form whose email a stored user has shows
    the form again with the email-in-use message, writes nothing and logs
    nobody in. *)
Theorem register_duplicate_email (ctx : Ctx) (rq : Request RegisterForm.t)
    (app : App) (k : Z) (u : User.t) :
  is_authenticated ctx = false →
  validate_on_submit RegisterForm_validate rq = true →
  users (db app) !! k = Some u →
  User.email u = RegisterForm.email (form rq) →
  register ctx rq app
  = (render_form register_html [("email", "This email address already in use")], app)
  ∧ register_session ctx rq app = None.
Proof.
  intros Hanon Hvalid Hk Hu. unfold register, register_session.
  rewrite Hanon, Hvalid.
  destruct (user_by_email _ _) as [[j v]|] eqn:Hq; [done|].
  rewrite user_by_email_None in Hq. by destruct (Hq k u Hk).
Qed.

(** What one call does to the users table. *)
Lemma route_users_frame ctx call app :
  (∀ k u, users (db app) !! k = Some u →
          users (db (route ctx call app).2) !! k = Some u)
  ∧ (∀ k u, users (db (route ctx call app).2) !! k = Some u →
            users (db app) !! k = None →
            User.classification u = 1 ∧ ∃ rq, call = call_register rq).
Proof.
  assert ((∀ k u, users (db app) !! k = Some u → users (db app) !! k = Some u)
          ∧ (∀ k u, users (db app) !! k = Some u → users (db app) !! k = None →
               User.classification u = 1 ∧ ∃ rq, call = call_register rq)) as Hsame.
  { split; [done|]. intros k u Hk Hn. by rewrite Hk in Hn. }
  destruct call; simpl.
  - unfold register. destruct (is_authenticated ctx); [done|].
    destruct (validate_on_submit _ _); [|done].
    destruct (user_by_email _ _); [done|]. unfold add_user.
    case_decide; [done|]. simpl. split.
    + intros k u Hk. rewrite lookup_insert_ne; [done|].
      intros <-. by rewrite next_id_fresh in Hk.
    + intros k u Hk Hn. destruct (decide (next_id (users (db app)) = k)) as [<-|Hne].
      * rewrite lookup_insert_eq in Hk. inversion Hk; subst. simpl. eauto.
      * rewrite lookup_insert_ne in Hk by done. by rewrite Hk in Hn.
  - done.
  - unfold show_post. by destruct (posts (db app) !! post_id).
  - unfold create_post. gate_lt Hl; [done|].
    destruct (validate_on_submit _ _); [|done].
    destruct (posts_titled _ _); [|done]. unfold add_post. by case_decide.
  - unfold edit_post. gate_lt Hl; [done|].
    destruct (posts (db app) !! post_id); [|done].
    destruct (validate_on_submit _ _); [|done]. unfold update_post. by case_decide.
  - unfold delete_post. gate_lt Hl; [done|].
    by destruct (posts (db app) !! post_id).
  - unfold comment_post. gate_lt Hl; [done|].
    destruct (posts (db app) !! post_id); [|done].
    destruct (validate_on_submit _ _); [|done].
    by destruct (current_user ctx) as [[??]|].
  - unfold approve_comment. gate_lt Hl; [done|].
    by destruct (comments (db app) !! comment_id).
  - unfold delete_comment. gate_lt Hl; [done|].
    by destruct (comments (db app) !! comment_id).
Qed.

(** X15: over any sequence of requests, a stored user keeps its id and its
    row (email, digest, name, classification), and every user the requests
    add has classification 1: no request makes an admin. *)
Theorem requests_create_no_admin (rqs : list (option Z * Date * Call)) (app : App) :
  (∀ k u, users (db app) !! k = Some u →
          users (db (serve_all rqs app)) !! k = Some u)
  ∧ (∀ k u, users (db (serve_all rqs app)) !! k = Some u →
            users (db app) !! k = None → User.classification u = 1).
Proof.
  revert app. induction rqs as [|[[session day] c] rest IH]; intros app; simpl.
  - split; [done|]. intros k u Hk Hn. by rewrite Hk in Hn.
  - unfold serve. destruct (request_ctx session day (db app)) as [ctx|]; [|apply IH].
    destruct (route ctx c app) as [r app'] eqn:Hr.
    destruct (IH app') as [IH1 IH2].
    destruct (route_users_frame ctx c app) as [H1 H2]. rewrite Hr in H1, H2.
    simpl in *. split.
    + intros k u Hk. by apply IH1, H1.
    + intros k u Hk Hn. destruct (users (db app') !! k) as [v|] eqn:Hv.
      * apply IH1 in Hv as Hv'. rewrite Hk in Hv'. inversion Hv'; subst.
        by destruct (H2 k v Hv Hn).
      * by apply (IH2 k u).
Qed.

(** ** Who can write what *)

(** X16: a caller below level 2 changes no post and neither changes nor
    removes a stored comment; a caller below level 1 changes no comment at
    all. *)
Theorem writes_need_level (ctx : Ctx) (call : Call) (app : App) :
  let app' := (route ctx call app).2 in
  (get_classification_level ctx < 2 →
   posts (db app') = posts (db app)
   ∧ ∀ k c, comments (db app) !! k = Some c → comments (db app') !! k = Some c)
  ∧ (get_classification_level ctx < 1 → comments (db app') = comments (db app)).
Proof.
  destruct call; simpl.
  - unfold register. destruct (is_authenticated ctx); [done|].
    destruct (validate_on_submit _ _); [|done].
    destruct (user_by_email _ _); [done|]. unfold add_user. by case_decide.
  - done.
  - unfold show_post. by destruct (posts (db app) !! post_id).
  - unfold create_post. gate_lt Hl; [done|]. split; intros; lia.
  - unfold edit_post. gate_lt Hl; [done|]. split; intros; lia.
  - unfold delete_post. gate_lt Hl; [done|]. split; intros; lia.
  - unfold comment_post. gate_lt Hl; [done|]. split; [|intros; lia].
    intros _. destruct (posts (db app) !! post_id); [|done].
    destruct (validate_on_submit _ _); [|done].
    destruct (current_user ctx) as [[??]|]; [|done]. simpl. split; [done|].
    intros k c Hk. rewrite lookup_insert_ne; [done|].
    intros <-. by rewrite next_id_fresh in Hk.
  - unfold approve_comment. gate_lt Hl; [done|]. split; intros; lia.
  - unfold delete_comment. gate_lt Hl; [done|]. split; intros; lia.
Qed.

(** ** The constraints and references over the life of the process *)

Lemma is_Some_insert {A} (m : gmap Z A) i j x :
  is_Some (m !! j) → is_Some (<[i:=x]> m !! j).
Proof. intros. apply lookup_insert_is_Some'. by right. Qed.

Lemma route_keeps_references ctx call app :
  (∀ uid u, current_user ctx = Some (uid, u) → is_Some (users (db app) !! uid)) →
  references_kept (db app) → references_kept (db (route ctx call app).2).
Proof.
  intros Hctx Hrefs. destruct call; simpl.
  - unfold register. destruct (is_authenticated ctx); [done|].
    destruct (validate_on_submit _ _); [|done].
    destruct (user_by_email _ _); [done|]. unfold add_user.
    case_decide; [done|]. intros k c Hk. simpl in *.
    destruct (Hrefs k c Hk) as [Hp Hu]. split; [done|]. by apply is_Some_insert.
  - done.
  - unfold show_post. by destruct (posts (db app) !! post_id).
  - unfold create_post. gate_lt Hl; [done|].
    destruct (validate_on_submit _ _); [|done].
    destruct (posts_titled _ _); [|done]. unfold add_post.
    case_decide; [done|]. intros k c Hk. simpl in *.
    destruct (Hrefs k c Hk) as [Hp Hu]. split; [|done]. by apply is_Some_insert.
  - unfold edit_post. gate_lt Hl; [done|].
    destruct (posts (db app) !! post_id); [|done].
    destruct (validate_on_submit _ _); [|done]. unfold update_post.
    case_decide; [done|]. intros k c Hk. simpl in *.
    destruct (Hrefs k c Hk) as [Hp Hu]. split; [|done]. by apply is_Some_insert.
  - unfold delete_post. gate_lt Hl; [done|].
    destruct (posts (db app) !! post_id); [|done].
    intros k c Hk. simpl in *. apply map_lookup_filter_Some in Hk as [Hk Hne].
    simpl in Hne. destruct (Hrefs k c Hk) as [Hp Hu]. split; [|done].
    by rewrite lookup_delete_ne.
  - unfold comment_post. gate_lt Hl; [done|].
    destruct (posts (db app) !! post_id) as [p|] eqn:Hp; [|done].
    destruct (validate_on_submit _ _); [|done].
    destruct (current_user ctx) as [[uid u]|] eqn:Hu; [|done].
    intros k c Hk. simpl in *.
    destruct (decide (next_id (comments (db app)) = k)) as [<-|Hne].
    + rewrite lookup_insert_eq in Hk. inversion Hk; subst. simpl.
      split; [by rewrite Hp|]. by apply (Hctx uid u).
    + rewrite lookup_insert_ne in Hk by done. by apply (Hrefs k c).
  - unfold approve_comment. gate_lt Hl; [done|].
    destruct (comments (db app) !! comment_id) as [c0|] eqn:Hc0; [|done].
    intros k c Hk. simpl in *. destruct (decide (comment_id = k)) as [->|Hne].
    + rewrite lookup_insert_eq in Hk. inversion Hk; subst. simpl.
      by apply (Hrefs k c0).
    + rewrite lookup_insert_ne in Hk by done. by apply (Hrefs k c).
  - unfold delete_comment. gate_lt Hl; [done|].
    destruct (comments (db app) !! comment_id) as [c0|] eqn:Hc0; [|done].
    intros k c Hk. simpl in *. apply lookup_delete_Some in Hk as [_ Hk].
    by apply (Hrefs k c).
Qed.

Lemma serve_keeps_constraints session day c app r app' :
  serve session day c app = Some (r, app') →
  constraints_kept (db app) → constraints_kept (db app').
Proof.
  unfold serve. destruct (request_ctx session day (db app)) as [ctx|] eqn:Hctx; [|done].
  intros [= Hr] (Ht & He & Hrefs).
  pose proof (route_keeps_constraints ctx c app Ht He) as [Ht' He'].
  pose proof (route_keeps_references ctx c app) as Hrefs'.
  rewrite Hr in Ht', He', Hrefs'. simpl in *. split_and!; [done..|].
  apply Hrefs'; [|done]. intros uid u Hu.
  unfold request_ctx, load_user in Hctx. destruct session as [user_id|].
  - destruct (users (db app) !! user_id) as [v|] eqn:Hv; [|done].
    inversion Hctx; subst. simpl in Hu. inversion Hu; subst. by rewrite Hv.
  - inversion Hctx; subst. done.
Qed.

Lemma constraints_kept_empty : constraints_kept empty_db.
Proof.
  split_and!.
  - intros i j x y Hi. cbn in Hi. by rewrite lookup_empty in Hi.
  - intros i j x y Hi. cbn in Hi. by rewrite lookup_empty in Hi.
  - intros k c Hk. cbn in Hk. by rewrite lookup_empty in Hk.
Qed.

(** X17: started on a database that meets them, the process keeps, over
    any sequence of requests, the two unique constraints (post titles, user
    emails) and the references of the comments: every comment is on a
    stored post and by a stored user. *)
Theorem requests_keep_constraints (env : Env) (now : Date) (disk : Db) (app : App)
    (rqs : list (option Z * Date * Call)) :
  constraints_kept disk →
  startup env now disk = inr app →
  constraints_kept (db (serve_all rqs app)).
Proof.
  intros (Ht & He & Hrefs) Hstart.
  assert (constraints_kept (db app)) as Happ.
  { destruct (startup_keeps_constraints env now disk app Hstart Ht He) as [Ht' He'].
    split_and!; [done..|]. unfold startup in Hstart.
    destruct (add_user _ _) as [?|[k d]] eqn:Hadd; [done|].
    inversion Hstart; subst. apply add_user_inr in Hadd as (_ & -> & ->).
    intros j c Hj. simpl in *. destruct (Hrefs j c Hj) as [Hp Hu].
    split; [done|]. by apply is_Some_insert. }
  clear Hstart Ht He Hrefs. revert app Happ.
  induction rqs as [|[[session day] c] rest IH]; intros app Happ; simpl; [done|].
  destruct (serve session day c app) as [[r app']|] eqn:Hs; [|by apply IH].
  apply IH. by apply (serve_keeps_constraints _ _ _ _ _ _ Hs).
Qed.

(** X18: on a database where no user has the admin email, the start of the
    process succeeds and adds one user, of classification 2, with the
    configured email and name and the digest of the configured password,
    under a fresh id; everything stored before stays. *)
Theorem startup_seeds_admin (env : Env) (now : Date) (disk : Db) :
  (∀ k u, users disk !! k = Some u → User.email u ≠ ADMIN_EMAIL env) →
  ∃ app, startup env now disk = inr app
    ∧ users disk !! next_id (users disk) = None
    ∧ users (db app) !! next_id (users disk)
      = Some (User.mk (ADMIN_EMAIL env) (generate_password_hash (ADMIN_PASSWORD env))
                      (ADMIN_NAME env) 2)
    ∧ (∀ k, k ≠ next_id (users disk) → users (db app) !! k = users disk !! k)
    ∧ posts (db app) = posts disk
    ∧ comments (db app) = comments disk.
Proof.
  intros Hfree. unfold startup, add_user. rewrite decide_False.
  - eexists. split; [done|]. simpl. split_and!; try done.
    + apply next_id_fresh.
    + apply lookup_insert_eq.
    + intros k Hk. by rewrite lookup_insert_ne.
  - intros (k & u & Hk & Hu). by apply (Hfree k u).
Qed.

(** ** [login] *)

(** X19: a caller who is not logged in leaves [login] with a session only
    for a stored user who has the email of the form and whose stored digest
    [check_password_hash] accepts for the password of the form. *)
Theorem login_needs_credentials (ctx : Ctx) (rq : Request LoginForm.t) (app : App)
    (uid : Z) :
  is_authenticated ctx = false →
  (login ctx rq app).2 = Some uid →
  (login ctx rq app).1 = session_redirect_home
  ∧ ∃ u, users (db app) !! uid = Some u
         ∧ User.email u = LoginForm.email (form rq)
         ∧ check_password_hash (User.password u) (LoginForm.password (form rq)) = true.
Proof.
  intros Hanon. unfold login. rewrite Hanon.
  destruct (validate_on_submit _ _); [|done].
  destruct (user_by_email _ _) as [[j v]|] eqn:Hq; [|done].
  destruct (check_password_hash _ _) eqn:Hpw; [|done].
  simpl. intros [= ->]. split; [done|]. exists v.
  by apply user_by_email_Some in Hq as [? ?].
Qed.


(** X21: when [check_password_hash] accepts the digest
    [generate_password_hash] makes of a password, a user who registered can
    log in: after a successful [register], [login] with the same email and
    password opens the session of the user just stored. *)
Theorem register_then_login (ctx ctx' : Ctx) (rq : Request RegisterForm.t)
    (lrq : Request LoginForm.t) (app : App) :
  (∀ pw, check_password_hash (generate_password_hash pw) pw = true) →
  emails_unique (db app) →
  is_authenticated ctx = false →
  validate_on_submit RegisterForm_validate rq = true →
  (∀ k u, users (db app) !! k = Some u →
          User.email u ≠ RegisterForm.email (form rq)) →
  is_authenticated ctx' = false →
  validate_on_submit LoginForm_validate lrq = true →
  LoginForm.email (form lrq) = RegisterForm.email (form rq) →
  LoginForm.password (form lrq) = RegisterForm.password (form rq) →
  login ctx' lrq (register ctx rq app).2
  = (session_redirect_home, Some (next_id (users (db app)))).
Proof.
  intros Hlib Huniq Hanon Hvalid Hfree Hanon' Hvalid' Hemail Hpw.
  destruct (register_inserts ctx rq app Hanon Hvalid Hfree) as [-> _]. simpl.
  unfold login. rewrite Hanon', Hvalid', Hemail.
  assert (emails_unique
            (set_users (insert (next_id (users (db app))) (user_of_form (form rq)))
                       (db app))) as Huniq'.
  { apply unique_column_insert; [done|]. intros j y Hj _. by apply (Hfree j). }
  pose proof (user_by_email_unique _ (next_id (users (db app)))
                (user_of_form (form rq)) Huniq' (lookup_insert_eq _ _ _)) as Hq.
  simpl in Hq. simpl. rewrite Hq. simpl. by rewrite Hpw, Hlib.
Qed.

(** ** After [delete_post]; the comment query *)

(** X22: after an admin's [delete_post] on a stored post, the other posts
    and the users are as before, the post's page and a second
    [delete_post] are answered with the unreachable-content page, and the
    title is free again: [create_post] with it succeeds. *)
Theorem delete_post_frees_title (ctx : Ctx) (post_id : Z) (app : App) (p : Post.t)
    (rq : Request BasePostForm.t) :
  titles_unique (db app) →
  2 ≤ get_classification_level ctx →
  posts (db app) !! post_id = Some p →
  validate_on_submit BasePostForm_validate rq = true →
  BasePostForm.title (form rq) = Post.title p →
  let app' := (delete_post ctx post_id app).2 in
  (∀ k, k ≠ post_id → posts (db app') !! k = posts (db app) !! k)
  ∧ users (db app') = users (db app)
  ∧ show_post post_id app' = (render_error UNREACHABLE_ERROR_MSG, app')
  ∧ delete_post ctx post_id app' = (render_error UNREACHABLE_ERROR_MSG, app')
  ∧ (create_post ctx rq app').1 = redirect_show_post (next_id (posts (db app'))).
Proof.
  intros Huniq Hl Hp Hvalid Ht.
  assert (delete_post ctx post_id app
          = (redirect_home, set_db (delete_post_cascade post_id (db app)) app)) as ->.
  { unfold delete_post. by rewrite (admin_passes _ Hl), Hp. }
  simpl. split_and!.
  - intros k Hk. by rewrite lookup_delete_ne.
  - done.
  - unfold show_post. simpl. by rewrite lookup_delete_eq.
  - unfold delete_post. rewrite (admin_passes _ Hl). simpl.
    by rewrite lookup_delete_eq.
  - rewrite create_post_inserts; [done..|].
    intros k q Hk Hq. simpl in Hk. apply lookup_delete_Some in Hk as [Hne Hk].
    apply Hne. symmetry. apply (Huniq k post_id q p); congruence.
Qed.

(** X23: the comment query of [show_post] has every stored comment of the
    post, and each once. *)
Theorem listComments_complete (post_id : Z) (d : Db) :
  (∀ k c, (k, c) ∈ listComments post_id d
          ↔ comments d !! k = Some c ∧ Comment.post_id c = post_id)
  ∧ NoDup (listComments post_id d).*1.
Proof.
  split.
  - intros k c. by rewrite listComments_elem_of.
  - unfold listComments. rewrite merge_sort_Permutation.
    apply NoDup_fst_map_to_list.
Qed.

End Blog.

(** * A run of the blog

    The process starts on an empty database; the admin publishes a post, a
    member comments on it twice, and the admin approves the first comment.
    For the run the validators accept every field and the digest is the
    password with the method in front of it. *)

Definition accept_all : Validator → string → bool := λ _ _, true.
Definition digest (pw : string) : string := "pbkdf2:sha256$" +:+ pw.

Definition env0 : Env := mkEnv "admin@blog.com" "s3cret" "Hadar".
Definition day0 : Date := 738886.
Definition day1 : Date := 738887.

Definition admin_row : User.t := User.mk "admin@blog.com" (digest "s3cret") "Hadar" 2.
Definition ann_row : User.t := User.mk "a@x.com" (digest "pw123456") "Ann" 1.

Definition guest (day : Date) : Ctx := mkCtx None day.
Definition admin (day : Date) : Ctx := mkCtx (Some (1, admin_row)) day.
Definition ann (day : Date) : Ctx := mkCtx (Some (2, ann_row)) day.

Definition hello : Request BasePostForm.t :=
  mkRequest POST true
    (BasePostForm.mk "Hello" "A first post" "https://example.com/a.png" "Hadar"
                     "<p>Hello, world</p>").
Definition hello_again : Request BasePostForm.t :=
  mkRequest POST true
    (BasePostForm.mk "Hello" "Another subtitle" "https://example.com/b.png" "Someone"
                     "<p>Other text</p>").
Definition bye : Request BasePostForm.t :=
  mkRequest POST true
    (BasePostForm.mk "Bye" "A last post" "https://example.com/c.png" "Hadar"
                     "<p>Goodbye</p>").
Definition nice : Request CommentForm.t :=
  mkRequest POST true (CommentForm.mk "<p>Nice post</p>").
Definition sign_up : Request RegisterForm.t :=
  mkRequest POST true (RegisterForm.mk "Ann" "a@x.com" "pw123456").

Definition step (ctx : Ctx) (c : Call) (app : App) : App :=
  (route accept_all digest ctx c app).2.

Definition app0 : App :=
  match startup digest env0 day0 empty_db with
  | inr app => app
  | inl _ => mkApp day0 empty_db
  end.
Definition app1 : App := step (guest day0) (call_register sign_up) app0.
Definition app2 : App := step (admin day0) (call_create_post hello) app1.
Definition app3 : App := step (ann day0) (call_comment_post 1 nice) app2.
Definition app4 : App := step (ann day0) (call_comment_post 1 nice) app3.
Definition app5 : App := step (admin day0) (call_approve_comment 1) app4.
Definition app6 : App := step (admin day0) (call_create_post bye) app5.

Lemma app0_started : startup digest env0 day0 empty_db = inr app0.
Proof. vm_compute. reflexivity. Qed.

Lemma app5_comments :
  comments (db app5)
  = <[1 := Comment.mk 2 1 "<p>Nice post</p>" true]>
      (<[2 := Comment.mk 2 1 "<p>Nice post</p>" false]> ∅).
Proof. vm_compute. reflexivity. Qed.

Lemma app6_posts :
  posts (db app6)
  = <[1 := Post.mk "Hello" "A first post" "https://example.com/a.png" "Hadar"
                   "<p>Hello, world</p>" day0]>
      (<[2 := Post.mk "Bye" "A last post" "https://example.com/c.png" "Hadar"
                      "<p>Goodbye</p>" day0]> ∅).
Proof. vm_compute. reflexivity. Qed.

Lemma app_constraints :
  (titles_unique (db app2) ∧ emails_unique (db app2))
  ∧ (titles_unique (db app6) ∧ emails_unique (db app6)).
Proof.
  assert (titles_unique (db app0) ∧ emails_unique (db app0)) as [Ht0 He0].
  { by apply (startup_keeps_constraints digest env0 day0 empty_db app0 app0_started). }
  assert (∀ ctx c app, titles_unique (db app) ∧ emails_unique (db app) →
            titles_unique (db (step ctx c app)) ∧ emails_unique (db (step ctx c app)))
    as Hstep.
  { intros ctx c app [??]. by apply route_keeps_constraints. }
  assert (titles_unique (db app2) ∧ emails_unique (db app2)) as H2.
  { unfold app2, app1. by do 2 apply Hstep. }
  split; [done|]. unfold app6, app5, app4, app3. by do 4 apply Hstep.
Qed.

(** * Instances of the theorems on the run *)

(** C1, as the claim has it, fails on the run: of the two comments of post 1
    the approved one comes first. *)
Lemma listComments_unapproved_first_fails :
  ¬ ((∀ kc, kc ∈ listComments 1 (db app5) → Comment.post_id kc.2 = 1)
     ∧ unapproved_first (listComments 1 (db app5))).
Proof.
  intros [_ Hord].
  assert (listComments 1 (db app5)
          = [(1, Comment.mk 2 1 "<p>Nice post</p>" true);
             (2, Comment.mk 2 1 "<p>Nice post</p>" false)]) as Hl
    by (vm_compute; reflexivity).
  rewrite Hl in Hord.
  specialize (Hord 1%nat 0%nat _ _ eq_refl eq_refl eq_refl eq_refl). lia.
Qed.

Lemma guest_unauthorized_witness :
  comment_post accept_all (guest day1) 999 nice app6
    = (render_error UNAUTHORIZED_ERROR_MSG, app6)
  ∧ create_post accept_all (guest day1) hello app6
    = (render_error UNAUTHORIZED_ERROR_MSG, app6)
  ∧ edit_post accept_all (guest day1) 999 hello app6
    = (render_error UNAUTHORIZED_ERROR_MSG, app6)
  ∧ delete_post (guest day1) 999 app6 = (render_error UNAUTHORIZED_ERROR_MSG, app6)
  ∧ approve_comment (guest day1) 7 app6 = (render_error UNAUTHORIZED_ERROR_MSG, app6)
  ∧ delete_comment (guest day1) 7 app6 = (render_error UNAUTHORIZED_ERROR_MSG, app6).
Proof.
  apply (guest_unauthorized accept_all (guest day1) app6 999 7 hello nice).
  reflexivity.
Defined.

Lemma create_post_duplicate_title_witness :
  create_post accept_all (admin day1) hello_again app6
  = (render_form create_html [("title", "A post with that title is already exist")], app6)
  ∧ length (posts_titled "Hello"
              (db (create_post accept_all (admin day1) hello_again app6).2)) = 1%nat.
Proof.
  apply (create_post_duplicate_title accept_all (admin day1) hello_again app6 1
           (Post.mk "Hello" "A first post" "https://example.com/a.png" "Hadar"
                    "<p>Hello, world</p>" day0)).
  - vm_compute. discriminate.
  - apply app_constraints.
  - vm_compute. reflexivity.
  - reflexivity.
  - reflexivity.
Defined.

Lemma edit_post_duplicate_title_rejected_witness :
  (edit_post accept_all (admin day1) 2 hello_again app6).2 = app6
  ∧ (∀ k, (edit_post accept_all (admin day1) 2 hello_again app6).1
          ≠ redirect_show_post k)
  ∧ (validate_on_submit (BasePostForm_validate accept_all) hello_again = true →
     (edit_post accept_all (admin day1) 2 hello_again app6).1
     = server_error (IntegrityError "UNIQUE constraint failed: posts.title"))
  ∧ titles_unique (db (edit_post accept_all (admin day1) 2 hello_again app6).2).
Proof.
  apply (edit_post_duplicate_title_rejected accept_all (admin day1) hello_again app6
           2 1
           (Post.mk "Bye" "A last post" "https://example.com/c.png" "Hadar"
                    "<p>Goodbye</p>" day0)
           (Post.mk "Hello" "A first post" "https://example.com/a.png" "Hadar"
                    "<p>Hello, world</p>" day0)).
  - vm_compute. discriminate.
  - apply app_constraints.
  - lia.
  - vm_compute. reflexivity.
  - vm_compute. reflexivity.
  - reflexivity.
Defined.

(** C5: the process starts on [day0]; the admin publishes a post the day
    after, and the post is stored with [day0], not with the day of its
    creation. *)
Theorem create_post_next_day_has_startup_date :
  startup digest env0 day0 empty_db = inr app0
  ∧ today (admin day1) = day1
  ∧ (create_post accept_all (admin day1) hello app0).1 = redirect_show_post 1
  ∧ Post.date <$> posts (db (create_post accept_all (admin day1) hello app0).2) !! 1
    = Some day0
  ∧ day0 ≠ day1.
Proof.
  split_and!; [apply app0_started|reflexivity|by vm_compute|by vm_compute|done].
Qed.

Lemma delete_post_cascades_witness :
  (delete_post (admin day1) 1 app6).1 = redirect_home
  ∧ posts (db (delete_post (admin day1) 1 app6).2) !! 1 = None
  ∧ (∀ k c, comments (db (delete_post (admin day1) 1 app6).2) !! k = Some c →
            Comment.post_id c ≠ 1)
  ∧ listComments 1 (db (delete_post (admin day1) 1 app6).2) = []
  ∧ (size (comments (db (delete_post (admin day1) 1 app6).2))
     + length (listComments 1 (db app6)))%nat = size (comments (db app6))
  ∧ (∀ k c, comments (db app6) !! k = Some c → Comment.post_id c ≠ 1 →
            comments (db (delete_post (admin day1) 1 app6).2) !! k = Some c).
Proof.
  apply (delete_post_cascades (admin day1) 1 app6
           (Post.mk "Hello" "A first post" "https://example.com/a.png" "Hadar"
                    "<p>Hello, world</p>" day0)).
  - vm_compute. discriminate.
  - vm_compute. reflexivity.
Defined.

Lemma authorize_monotonic_witness : authorize (1 + 1) CommentOnPost = true.
Proof. apply (authorize_monotonic 1 CommentOnPost). reflexivity. Defined.

(** C8: started again on the database the first start left, the module
    body raises the [IntegrityError] of [users.email] and the process does
    not come up. *)
Theorem second_startup_raises :
  startup digest env0 day0 empty_db = inr app0
  ∧ startup digest env0 day1 (db app0)
    = inl (IntegrityError "UNIQUE constraint failed: users.email")
  ∧ startup digest env0 day1 (db app6)
    = inl (IntegrityError "UNIQUE constraint failed: users.email").
Proof.
  split_and!; [apply app0_started|..].
  - apply (startup_twice digest env0 day0 day1 empty_db app0 app0_started).
  - apply (startup_existing_admin digest env0 day1 (db app6) 1 admin_row);
      by vm_compute.
Qed.

Lemma comment_only_approved_changes_witness :
  (2 ≤ get_classification_level (admin day1) →
   comments (db (approve_comment (admin day1) 2 app6).2) !! 2
   = Some (Comment.mk 2 1 "<p>Nice post</p>" true))
  ∧ (∀ call : Call,
      match comments (db (route accept_all digest (admin day1) call app6).2) !! 2 with
      | None => call = call_delete_comment 2 ∨ call = call_delete_post 1
      | Some c' =>
          Comment.user_id c' = 2
          ∧ Comment.post_id c' = 1
          ∧ Comment.body c' = "<p>Nice post</p>"
          ∧ (Comment.approved c' = false
             ∨ (call = call_approve_comment 2 ∧ Comment.approved c' = true))
      end).
Proof.
  apply (comment_only_approved_changes accept_all digest (admin day1) app6 2
           (Comment.mk 2 1 "<p>Nice post</p>" false)).
  vm_compute. reflexivity.
Defined.

Lemma approve_comment_idempotent_witness :
  approve_comment (admin day1) 1 app6 = (redirect_show_post 1, app6).
Proof.
  apply (approve_comment_idempotent (admin day1) 1 app6
           (Comment.mk 2 1 "<p>Nice post</p>" true)).
  - vm_compute. discriminate.
  - vm_compute. reflexivity.
  - reflexivity.
Defined.

(** * Instances of the further properties on the run *)

Definition check_digest (pwhash pw : string) : bool := String.eqb pwhash (digest pw).

Definition third : Request BasePostForm.t :=
  mkRequest POST true
    (BasePostForm.mk "Third" "One more" "https://example.com/d.png" "Hadar"
                     "<p>Third post</p>").
Definition farewell : Request BasePostForm.t :=
  mkRequest POST true
    (BasePostForm.mk "Farewell" "A last post, edited" "https://example.com/c.png"
                     "Hadar" "<p>Goodbye, all</p>").
Definition bob_signs_up : Request RegisterForm.t :=
  mkRequest POST true (RegisterForm.mk "Bob" "bob@x.com" "hunter22").
Definition ann_logs_in : Request LoginForm.t :=
  mkRequest POST true (LoginForm.mk "a@x.com" "pw123456").
Definition bob_logs_in : Request LoginForm.t :=
  mkRequest POST true (LoginForm.mk "bob@x.com" "hunter22").

Definition hello_post : Post.t :=
  Post.mk "Hello" "A first post" "https://example.com/a.png" "Hadar"
          "<p>Hello, world</p>" day0.
Definition bye_post : Post.t :=
  Post.mk "Bye" "A last post" "https://example.com/c.png" "Hadar" "<p>Goodbye</p>" day0.
Definition pending : Comment.t := Comment.mk 2 1 "<p>Nice post</p>" false.

Lemma app6_post_rows k q :
  posts (db app6) !! k = Some q → (k = 1 ∧ q = hello_post) ∨ (k = 2 ∧ q = bye_post).
Proof.
  rewrite app6_posts. intros Hk.
  apply lookup_insert_Some in Hk as [[<- <-]|[_ Hk]]; [by left|].
  apply lookup_insert_Some in Hk as [[<- <-]|[_ Hk]]; [by right|].
  by rewrite lookup_empty in Hk.
Qed.

Lemma app6_references : references_kept (db app6).
Proof.
  intros k c Hk.
  assert (comments (db app6) = comments (db app5)) as Heq by (vm_compute; reflexivity).
  rewrite Heq, app5_comments in Hk.
  apply lookup_insert_Some in Hk as [[<- <-]|[_ Hk]];
    [split; vm_compute; eauto|].
  apply lookup_insert_Some in Hk as [[<- <-]|[_ Hk]];
    [split; vm_compute; eauto|].
  by rewrite lookup_empty in Hk.
Qed.

Lemma only_redirects_write_witness :
  (route accept_all digest (guest day1) (call_delete_post 1) app6).2 = app6.
Proof.
  apply (only_redirects_write accept_all digest (guest day1) (call_delete_post 1) app6).
  vm_compute. reflexivity.
Defined.

Lemma gate_monotone_on_routes_witness :
  (route accept_all digest (admin day1) (call_comment_post 1 nice) app5).1
  ≠ render_error UNAUTHORIZED_ERROR_MSG.
Proof.
  apply (gate_monotone_on_routes accept_all digest (ann day1) (admin day1)
           (call_comment_post 1 nice) app6 app5).
  - vm_compute. discriminate.
  - vm_compute. discriminate.
Defined.


Lemma comment_post_stores_witness :
  let new_id := next_id (comments (db app6)) in
  let c := Comment.mk 2 2 "<p>Nice post</p>" false in
  let app' := (comment_post accept_all (ann day1) 2 nice app6).2 in
  (comment_post accept_all (ann day1) 2 nice app6).1 = redirect_show_post 2
  ∧ comments (db app6) !! new_id = None
  ∧ comments (db app') !! new_id = Some c
  ∧ (∀ k, k ≠ new_id → comments (db app') !! k = comments (db app6) !! k)
  ∧ (new_id, c) ∈ listComments 2 (db app')
  ∧ length (listComments 2 (db app')) = S (length (listComments 2 (db app6)))
  ∧ posts (db app') = posts (db app6)
  ∧ users (db app') = users (db app6).
Proof.
  apply (comment_post_stores accept_all (ann day1) 2 nice app6 bye_post 2 ann_row).
  - reflexivity.
  - vm_compute. discriminate.
  - vm_compute. reflexivity.
  - reflexivity.
Defined.

Lemma delete_comment_removes_witness :
  let app' := (delete_comment (admin day1) 2 app6).2 in
  (delete_comment (admin day1) 2 app6).1 = redirect_show_post 1
  ∧ comments (db app') !! 2 = None
  ∧ (∀ j, j ≠ 2 → comments (db app') !! j = comments (db app6) !! j)
  ∧ posts (db app') = posts (db app6)
  ∧ users (db app') = users (db app6)
  ∧ (∀ pid kc, kc ∈ listComments pid (db app')
               ↔ kc ∈ listComments pid (db app6) ∧ kc.1 ≠ 2)
  ∧ delete_comment (admin day1) 2 app' = (render_error UNREACHABLE_ERROR_MSG, app').
Proof.
  apply (delete_comment_removes (admin day1) 2 app6 pending).
  - vm_compute. discriminate.
  - vm_compute. reflexivity.
Defined.

Lemma approve_comment_listed_witness :
  let app' := (approve_comment (admin day1) 2 app6).2 in
  (approve_comment (admin day1) 2 app6).1 = redirect_show_post 1
  ∧ (2, Comment.set_approved true pending) ∈ listComments 1 (db app')
  ∧ (∀ pid c', (2, c') ∈ listComments pid (db app') →
               c' = Comment.set_approved true pending)
  ∧ (∀ j, j ≠ 2 → comments (db app') !! j = comments (db app6) !! j)
  ∧ (∀ pid, length (listComments pid (db app'))
            = length (listComments pid (db app6)))
  ∧ posts (db app') = posts (db app6)
  ∧ users (db app') = users (db app6).
Proof.
  apply (approve_comment_listed (admin day1) 2 app6 pending).
  - vm_compute. discriminate.
  - vm_compute. reflexivity.
Defined.

Lemma create_post_stores_witness :
  let new_id := next_id (posts (db app6)) in
  let app' := (create_post accept_all (admin day1) third app6).2 in
  (create_post accept_all (admin day1) third app6).1 = redirect_show_post new_id
  ∧ posts (db app6) !! new_id = None
  ∧ posts (db app') !! new_id
    = Some (post_of_form (form third) (Post_date_default app6))
  ∧ (∀ k, k ≠ new_id → posts (db app') !! k = posts (db app6) !! k)
  ∧ comments (db app') = comments (db app6)
  ∧ users (db app') = users (db app6)
  ∧ create_post accept_all (admin day1) third app'
    = (render_form create_html
         [("title", "A post with that title is already exist")], app').
Proof.
  apply (create_post_stores accept_all (admin day1) third app6).
  - vm_compute. discriminate.
  - reflexivity.
  - apply posts_titled_nil. vm_compute. reflexivity.
Defined.

Lemma created_post_shows_without_comments_witness :
  let new_id := next_id (posts (db app6)) in
  let app' := (create_post accept_all (admin day1) third app6).2 in
  show_post new_id app'
  = (render_post (new_id, post_of_form (form third) (Post_date_default app6)) [], app').
Proof.
  apply (created_post_shows_without_comments accept_all (admin day1) third app6).
  - apply app6_references.
  - vm_compute. discriminate.
  - reflexivity.
  - apply posts_titled_nil. vm_compute. reflexivity.
Defined.

Lemma edit_post_overwrites_witness :
  let app' := (edit_post accept_all (admin day1) 2 farewell app6).2 in
  (edit_post accept_all (admin day1) 2 farewell app6).1 = redirect_show_post 2
  ∧ posts (db app') !! 2 = Some (post_of_form (form farewell) day1)
  ∧ (∀ k, k ≠ 2 → posts (db app') !! k = posts (db app6) !! k)
  ∧ size (posts (db app')) = size (posts (db app6))
  ∧ comments (db app') = comments (db app6)
  ∧ users (db app') = users (db app6)
  ∧ edit_post accept_all (admin day1) 2 farewell app' = (redirect_show_post 2, app').
Proof.
  apply (edit_post_overwrites accept_all (admin day1) 2 farewell app6 bye_post).
  - vm_compute. discriminate.
  - vm_compute. reflexivity.
  - reflexivity.
  - intros k q Hk Hne. apply app6_post_rows in Hk as [[-> ->]|[-> ->]]; [|lia].
    discriminate.
Defined.

Lemma edit_post_keeping_title_witness :
  (edit_post accept_all (admin day1) 2 bye app6).1 = redirect_show_post 2
  ∧ posts (db (edit_post accept_all (admin day1) 2 bye app6).2) !! 2
    = Some (post_of_form (form bye) day1).
Proof.
  apply (edit_post_keeping_title accept_all (admin day1) 2 bye app6 bye_post).
  - apply app_constraints.
  - vm_compute. discriminate.
  - vm_compute. reflexivity.
  - reflexivity.
  - reflexivity.
Defined.

Lemma post_changes_only_by_edit_or_delete_witness :
  match posts (db (route accept_all digest (admin day1) (call_edit_post 2 farewell)
                     app6).2) !! 2 with
  | None => call_edit_post 2 farewell = call_delete_post 2
  | Some q =>
      q = bye_post
      ∨ ∃ rq, call_edit_post 2 farewell = call_edit_post 2 rq
              ∧ q = post_of_form (form rq) (today (admin day1))
  end.
Proof.
  apply (post_changes_only_by_edit_or_delete accept_all digest (admin day1)
           (call_edit_post 2 farewell) app6 2 bye_post).
  vm_compute. reflexivity.
Defined.

Lemma register_stores_member_witness :
  let new_id := next_id (users (db app6)) in
  let app' := (register accept_all digest (guest day1) bob_signs_up app6).2 in
  (register accept_all digest (guest day1) bob_signs_up app6).1 = redirect_home
  ∧ register_session accept_all digest (guest day1) bob_signs_up app6 = Some new_id
  ∧ users (db app6) !! new_id = None
  ∧ users (db app') !! new_id = Some (user_of_form digest (form bob_signs_up))
  ∧ (∀ k, k ≠ new_id → users (db app') !! k = users (db app6) !! k)
  ∧ posts (db app') = posts (db app6)
  ∧ comments (db app') = comments (db app6)
  ∧ get_classification_level <$> request_ctx (Some new_id) day1 (db app') = Some 1
  ∧ register accept_all digest (guest day1) bob_signs_up app'
    = (render_form register_html [("email", "This email address already in use")],
       app').
Proof.
  apply (register_stores_member accept_all digest (guest day1) bob_signs_up app6 day1).
  - reflexivity.
  - reflexivity.
  - apply user_by_email_None. vm_compute. reflexivity.
Defined.

Lemma register_duplicate_email_witness :
  register accept_all digest (guest day1) sign_up app6
  = (render_form register_html [("email", "This email address already in use")], app6)
  ∧ register_session accept_all digest (guest day1) sign_up app6 = None.
Proof.
  apply (register_duplicate_email accept_all digest (guest day1) sign_up app6 2 ann_row).
  - reflexivity.
  - reflexivity.
  - vm_compute. reflexivity.
  - reflexivity.
Defined.

Lemma requests_keep_constraints_witness :
  constraints_kept
    (db (serve_all accept_all digest
           [(None, day0, call_register sign_up);
            (Some 1, day0, call_create_post hello);
            (Some 2, day1, call_comment_post 1 nice);
            (Some 1, day1, call_delete_post 1)] app0)).
Proof.
  apply (requests_keep_constraints accept_all digest env0 day0 empty_db app0).
  - apply constraints_kept_empty.
  - apply app0_started.
Defined.

Lemma startup_seeds_admin_witness :
  ∃ app, startup digest env0 day0 empty_db = inr app
    ∧ users empty_db !! next_id (users empty_db) = None
    ∧ users (db app) !! next_id (users empty_db)
      = Some (User.mk (ADMIN_EMAIL env0) (digest (ADMIN_PASSWORD env0))
                      (ADMIN_NAME env0) 2)
    ∧ (∀ k, k ≠ next_id (users empty_db) → users (db app) !! k = users empty_db !! k)
    ∧ posts (db app) = posts empty_db
    ∧ comments (db app) = comments empty_db.
Proof.
  apply (startup_seeds_admin digest env0 day0 empty_db).
  intros k u Hk. cbn in Hk. by rewrite lookup_empty in Hk.
Defined.

Lemma login_needs_credentials_witness :
  (login accept_all check_digest (guest day1) ann_logs_in app6).1 = session_redirect_home
  ∧ ∃ u, users (db app6) !! 2 = Some u
         ∧ User.email u = LoginForm.email (form ann_logs_in)
         ∧ check_digest (User.password u) (LoginForm.password (form ann_logs_in)) = true.
Proof.
  apply (login_needs_credentials accept_all check_digest (guest day1) ann_logs_in app6 2).
  - reflexivity.
  - vm_compute. reflexivity.
Defined.


Lemma register_then_login_witness :
  login accept_all check_digest (guest day1) bob_logs_in
        (register accept_all digest (guest day1) bob_signs_up app6).2
  = (session_redirect_home, Some (next_id (users (db app6)))).
Proof.
  apply (register_then_login accept_all digest check_digest (guest day1) (guest day1)
           bob_signs_up bob_logs_in app6).
  - intros pw. apply String.eqb_refl.
  - apply app_constraints.
  - reflexivity.
  - reflexivity.
  - apply user_by_email_None. vm_compute. reflexivity.
  - reflexivity.
  - reflexivity.
  - reflexivity.
  - reflexivity.
Defined.

Lemma delete_post_frees_title_witness :
  let app' := (delete_post (admin day1) 1 app6).2 in
  (∀ k, k ≠ 1 → posts (db app') !! k = posts (db app6) !! k)
  ∧ users (db app') = users (db app6)
  ∧ show_post 1 app' = (render_error UNREACHABLE_ERROR_MSG, app')
  ∧ delete_post (admin day1) 1 app' = (render_error UNREACHABLE_ERROR_MSG, app')
  ∧ (create_post accept_all (admin day1) hello_again app').1
    = redirect_show_post (next_id (posts (db app'))).
Proof.
  apply (delete_post_frees_title accept_all (admin day1) 1 app6 hello_post hello_again).
  - apply app_constraints.
  - vm_compute. discriminate.
  - vm_compute. reflexivity.
  - reflexivity.
  - reflexivity.
Defined.
